(** * Gyst: a shallow embedding of the two entry points of the repository

The repository holds the class [Gyst] twice: [src/Gyst.js] (the
commander based entry point) and the second, unnamed source file (the
hand written dispatcher).  Both are embedded here, method by method, as
programs of a small monad over an explicit model of the [.gyst]
directory, and the properties of the specification are stated on them.

Model boundaries, stated once:
- text is a [string] of bytes (the UTF-8 encoding of the JavaScript
  string);
- a file of the working tree is held as its bytes, and a read of it
  decodes them as [fs.readFile(p, "utf-8")] does ([utf8_decode]: what is
  no well-formed UTF-8 comes back as U+FFFD); a file under [.gyst] is
  held as the text that such a read returns, which for a file the
  program wrote is the text it wrote;
- the files under [.gyst/objects] are looked up by the verbatim name
  that is joined to the objects directory; names that [path.join] would
  normalise (the empty name, names with [/] or [..]) are not modelled,
  nor is the working tree overlapping [.gyst];
- JSON values are null, booleans, strings, arrays and objects (the
  program never writes a number);
- [JSON.parse], [JSON.stringify], the SHA-1 digest and [diffLines] are
  library code: the programs take them as parameters, the JSON pair
  with its round-trip law. *)

From Stdlib Require Import Ascii String NArith ZArith Lia.
From stdpp Require Import gmap strings list.

Open Scope string_scope.
Open Scope list_scope.

(** ** JavaScript values *)

#[local] Unset Elimination Schemes.
Inductive JSON : Type :=
| JNull
| JBool (b : bool)
| JStr (s : string)
| JArr (items : list JSON)
| JObj (members : list (string * JSON)).
#[local] Set Elimination Schemes.

(** A JavaScript value that came from JSON, or [undefined] ([None]). *)
Definition JSValue : Type := option JSON.

Definition undefined : JSValue := None.
Definition null : JSValue := Some JNull.

(** [if (v)], [while (v)], [!v], [v || w]. *)
Definition truthy (v : JSValue) : bool :=
  match v with
  | None => false
  | Some JNull => false
  | Some (JBool b) => b
  | Some (JStr s) => negb (String.eqb s "")
  | Some (JArr _) => true
  | Some (JObj _) => true
  end.

(** [a === b] on values that were parsed separately: arrays and objects are
    compared by identity, so two of them are never equal. *)
Definition strict_eq (a b : JSValue) : bool :=
  match a, b with
  | None, None => true
  | Some JNull, Some JNull => true
  | Some (JBool x), Some (JBool y) => Bool.eqb x y
  | Some (JStr x), Some (JStr y) => String.eqb x y
  | _, _ => false
  end.

(** The text a value takes inside a template literal. *)
Fixpoint String_of (v : JSON) : string :=
  match v with
  | JNull => "null"
  | JBool true => "true"
  | JBool false => "false"
  | JStr s => s
  | JArr items =>
      (fix join (l : list JSON) : string :=
         match l with
         | [] => ""
         | x :: rest =>
             let sx := match x with JNull => "" | _ => String_of x end in
             match rest with
             | [] => sx
             | _ :: _ => sx +:+ "," +:+ join rest
             end
         end) items
  | JObj _ => "[object Object]"
  end.

Definition template (v : JSValue) : string :=
  match v with
  | None => "undefined"
  | Some j => String_of j
  end.

(** First member of an object with the given key. *)
Fixpoint assoc (k : string) (ms : list (string * JSON)) : JSValue :=
  match ms with
  | [] => None
  | (k', v) :: rest => if String.eqb k k' then Some v else assoc k rest
  end.

(** ** [String.prototype.trim] on UTF-8 text *)

Definition bytes (l : list nat) : string :=
  string_of_list_ascii (map ascii_of_nat l).

(** White space and line terminators of ECMAScript, as UTF-8. *)
Definition white_space : list string :=
  [ bytes [9]; bytes [10]; bytes [11]; bytes [12]; bytes [13]; bytes [32];
    bytes [194; 160]; bytes [225; 154; 128];
    bytes [226; 128; 128]; bytes [226; 128; 129]; bytes [226; 128; 130];
    bytes [226; 128; 131]; bytes [226; 128; 132]; bytes [226; 128; 133];
    bytes [226; 128; 134]; bytes [226; 128; 135]; bytes [226; 128; 136];
    bytes [226; 128; 137]; bytes [226; 128; 138];
    bytes [226; 128; 168]; bytes [226; 128; 169]; bytes [226; 128; 175];
    bytes [226; 129; 159]; bytes [227; 128; 128]; bytes [239; 187; 191] ].

Fixpoint strip_prefix (p s : string) : option string :=
  match p, s with
  | EmptyString, _ => Some s
  | String a p', String b s' => if Ascii.eqb a b then strip_prefix p' s' else None
  | String _ _, EmptyString => None
  end.

Fixpoint strip_one (ws : list string) (s : string) : option string :=
  match ws with
  | [] => None
  | w :: ws' =>
      match strip_prefix w s with
      | Some s' => Some s'
      | None => strip_one ws' s
      end
  end.

Fixpoint trim_start_fuel (fuel : nat) (ws : list string) (s : string) : string :=
  match fuel with
  | O => s
  | S fuel' =>
      match strip_one ws s with
      | Some s' => trim_start_fuel fuel' ws s'
      | None => s
      end
  end.

Definition rev_string (s : string) : string :=
  string_of_list_ascii (rev (list_ascii_of_string s)).

Definition trimStart (s : string) : string :=
  trim_start_fuel (String.length s) white_space s.

Definition trimEnd (s : string) : string :=
  rev_string
    (trim_start_fuel (String.length s) (map rev_string white_space) (rev_string s)).

Definition trim (s : string) : string := trimEnd (trimStart s).

Definition LF : string := bytes [10].

(** The double quote, character 34. *)
Definition dquote : ascii := Ascii false true false false false true false false.

(** ** Reading bytes as UTF-8 text

    [fs.readFile(p, "utf-8")] decodes the bytes of the file with the
    decoder of the Encoding standard: a well-formed sequence gives its
    character, every other byte or broken sequence gives U+FFFD.  The text
    is held as its UTF-8 encoding, so a well-formed sequence is put out as
    it is and U+FFFD as its three bytes. *)

(** U+FFFD, the replacement character. *)
Definition replacement : string := bytes [239; 191; 189].

(** What a first byte above 7F asks for: how many bytes must follow, and the
    range of the next one; the bytes after that are in 80..BF. *)
Definition lead (b : N) : option (nat * N * N) :=
  if (194 <=? b)%N && (b <=? 223)%N then Some (1, 128%N, 191%N)
  else if (b =? 224)%N then Some (2, 160%N, 191%N)
  else if (b =? 237)%N then Some (2, 128%N, 159%N)
  else if (225 <=? b)%N && (b <=? 239)%N then Some (2, 128%N, 191%N)
  else if (b =? 240)%N then Some (3, 144%N, 191%N)
  else if (b =? 244)%N then Some (3, 128%N, 143%N)
  else if (241 <=? b)%N && (b <=? 243)%N then Some (3, 128%N, 191%N)
  else None.

(** A sequence the decoder is in the middle of. *)
Record Partial : Type := mkPartial {
  seen : string;      (* its bytes so far *)
  needed : nat;       (* how many must follow *)
  lower : N;          (* the range of the next one *)
  upper : N
}.

Definition within (lo hi : N) (a : ascii) : bool :=
  (lo <=? N_of_ascii a)%N && (N_of_ascii a <=? hi)%N.

(** A byte read with no sequence open: the state after it and the text put
    out. *)
Definition first_byte (a : ascii) : option Partial * string :=
  if (N_of_ascii a <? 128)%N then (None, String a "")
  else match lead (N_of_ascii a) with
       | Some (n, lo, hi) => (Some (mkPartial (String a "") n lo hi), "")
       | None => (None, replacement)
       end.

(** A byte that does not continue the open sequence ends it with U+FFFD
    and is read again as a first byte. *)
Definition next_byte (st : option Partial) (a : ascii) : option Partial * string :=
  match st with
  | None => first_byte a
  | Some p =>
      if within (lower p) (upper p) a then
        match needed p with
        | S (S n) => (Some (mkPartial (seen p +:+ String a "") (S n) 128%N 191%N), "")
        | _ => (None, seen p +:+ String a "")
        end
      else
        let (st', out) := first_byte a in (st', replacement +:+ out)
  end.

(** At the end of the bytes an open sequence gives U+FFFD. *)
Fixpoint decode_from (st : option Partial) (s : string) : string :=
  match s with
  | "" => match st with Some _ => replacement | None => "" end
  | String a rest =>
      let (st', out) := next_byte st a in out +:+ decode_from st' rest
  end.

Definition utf8_decode (s : string) : string := decode_from None s.

(** Well-formed UTF-8 (table 3-7 of the Unicode standard), read off the
    first byte of each sequence. *)
Fixpoint well_formed (s : string) : bool :=
  match s with
  | "" => true
  | String a r =>
      if (N_of_ascii a <? 128)%N then well_formed r
      else
        match lead (N_of_ascii a), r with
        | Some (1, lo, hi), String c1 r1 => within lo hi c1 && well_formed r1
        | Some (2, lo, hi), String c1 (String c2 r2) =>
            within lo hi c1 && within 128%N 191%N c2 && well_formed r2
        | Some (3, lo, hi), String c1 (String c2 (String c3 r3)) =>
            within lo hi c1 && within 128%N 191%N c2 && within 128%N 191%N c3
            && well_formed r3
        | _, _ => false
        end
  end.

(** ** The library functions the programs are parametric in *)

Class JSONCodec : Type := {
  (** [JSON.stringify(v)] *)
  JSON_stringify : JSON -> string;
  (** [JSON.stringify(v, null, 2)] *)
  JSON_stringify_2 : JSON -> string;
  (** [JSON.parse(text)]; [None] is the [SyntaxError] *)
  JSON_parse : string -> option JSON;
  (** the empty text is no JSON text *)
  JSON_parse_empty : JSON_parse "" = None;
  JSON_parse_stringify : forall v, JSON_parse (JSON_stringify v) = Some v;
  JSON_parse_stringify_2 : forall v, JSON_parse (JSON_stringify_2 v) = Some v
}.

(** One part of the array returned by [diffLines]. *)
Record Change : Type := mkChange {
  value : string;
  added : bool;
  removed : bool
}.

(** ** The file system and the console *)

Inductive Path : Type :=
| headPath                      (* this.headPath *)
| indexPath                     (* this.indexPath *)
| objectPath (name : string)    (* path.join(this.objectsPath, name) *)
| workPath (file : string).     (* a path given on the command line *)

Inductive Error : Type :=
| ENOENT (p : Path)
| EEXIST (p : Path)
| SyntaxError
| TypeError.

Inductive Chalk : Type := green | red | grey.

Inductive Out : Type :=
| Log (line : string)                       (* console.log *)
| LogError (line : string) (e : Error)      (* console.log(text, error) *)
| Err (line : string)                       (* console.error *)
| Stdout (style : Chalk) (text : string).    (* process.stdout.write(chalk...) *)

Record World : Type := mkWorld {
  (** the working tree: the bytes of each file *)
  worktree : gmap string string;
  (** the files of [.gyst/objects], [.gyst/HEAD] and [.gyst/index]: the
      text of each file *)
  objects : gmap string string;
  HEAD : option string;
  index : option string;
  (** every file written so far, oldest first *)
  journal : list (Path * string);
  (** everything printed so far, oldest first *)
  console : list Out
}.

(** The text that [fs.readFile(p, "utf-8")] returns, if the file exists. *)
Definition read (w : World) (p : Path) : option string :=
  match p with
  | headPath => HEAD w
  | indexPath => index w
  | objectPath name => objects w !! name
  | workPath file =>
      match worktree w !! file with
      | Some data => Some (utf8_decode data)
      | None => None
      end
  end.

Definition store (p : Path) (data : string) (w : World) : World :=
  let j := journal w ++ [(p, data)] in
  match p with
  | headPath => mkWorld (worktree w) (objects w) (Some data) (index w) j (console w)
  | indexPath => mkWorld (worktree w) (objects w) (HEAD w) (Some data) j (console w)
  | objectPath name =>
      mkWorld (worktree w) (<[name := data]> (objects w)) (HEAD w) (index w) j (console w)
  | workPath file =>
      mkWorld (<[file := data]> (worktree w)) (objects w) (HEAD w) (index w) j (console w)
  end.

Definition print (o : Out) (w : World) : World :=
  mkWorld (worktree w) (objects w) (HEAD w) (index w) (journal w) (console w ++ [o]).

(** ** The monad of the methods *)

Inductive Outcome (A : Type) : Type :=
| Return (a : A)
| Throw (e : Error)       (* a rejected promise *)
| Exit (code : Z)         (* process.exit *)
| OutOfFuel.                (* the model ran out of fuel; not a behaviour *)

Arguments Return {A} a.
Arguments Throw {A} e.
Arguments Exit {A} code.
Arguments OutOfFuel {A}.

Definition M (A : Type) : Type := World -> Outcome A * World.

Definition ret {A} (a : A) : M A := fun w => (Return a, w).

Definition bind {A B} (m : M A) (k : A -> M B) : M B :=
  fun w =>
    match m w with
    | (Return a, w') => k a w'
    | (Throw e, w') => (Throw e, w')
    | (Exit c, w') => (Exit c, w')
    | (OutOfFuel, w') => (OutOfFuel, w')
    end.

Definition throw {A} (e : Error) : M A := fun w => (Throw e, w).
Definition process_exit {A} (code : Z) : M A := fun w => (Exit code, w).
Definition timeout {A} : M A := fun w => (OutOfFuel, w).

(** [try { m } catch (e) { h e }]: only a throw is caught. *)
Definition try_catch {A} (m : M A) (h : Error -> M A) : M A :=
  fun w =>
    match m w with
    | (Throw e, w') => h e w'
    | r => r
    end.

Notation "x <- m ; k" := (bind m (fun x => k))
  (at level 20, m at level 100, k at level 200, only parsing).
Notation "m ;; k" := (bind m (fun _ => k))
  (at level 100, k at level 200, only parsing, right associativity).

(** [fs.readFile(p, { encoding: "utf-8" })] *)
Definition fs_readFile (p : Path) : M string :=
  fun w => match read w p with
           | Some data => (Return data, w)
           | None => (Throw (ENOENT p), w)
           end.

Definition fs_access (p : Path) : M unit :=
  fun w => match read w p with
           | Some _ => (Return tt, w)
           | None => (Throw (ENOENT p), w)
           end.

Definition fs_writeFile (p : Path) (data : string) : M unit :=
  fun w => (Return tt, store p data w).

(** [fs.writeFile(p, data, { flag: "wx" })] *)
Definition fs_writeFile_wx (p : Path) (data : string) : M unit :=
  fun w => match read w p with
           | Some _ => (Throw (EEXIST p), w)
           | None => (Return tt, store p data w)
           end.

(** [fs.mkdir(this.objectsPath, { recursive: true })]: directories are not
    part of the model. *)
Definition fs_mkdir_objects : M unit := ret tt.

Definition console_log (line : string) : M unit :=
  fun w => (Return tt, print (Log line) w).
Definition console_log_error (line : string) (e : Error) : M unit :=
  fun w => (Return tt, print (LogError line e) w).
Definition console_error (line : string) : M unit :=
  fun w => (Return tt, print (Err line) w).
Definition stdout_write (style : Chalk) (text : string) : M unit :=
  fun w => (Return tt, print (Stdout style text) w).

(** [v.k] for the data keys the program reads ([path], [hash], [files],
    [parent], [timeStamp], [message]), none of which is a built-in
    property of a string, a boolean or an array. *)
Definition member (v : JSValue) (k : string) : M JSValue :=
  match v with
  | None => throw TypeError
  | Some JNull => throw TypeError
  | Some (JObj ms) => ret (assoc k ms)
  | Some _ => ret undefined
  end.

(** [path.join(this.objectsPath, name)] throws on a name that is no string. *)
Definition path_join_objects (name : JSValue) : M Path :=
  match name with
  | Some (JStr s) => ret (objectPath s)
  | _ => throw TypeError
  end.

(** [JSON.parse(text)] *)
Definition JSON_parse_text `{JSONCodec} (text : string) : M JSON :=
  match JSON_parse text with
  | Some v => ret v
  | None => throw SyntaxError
  end.

(** [arr.filter(keep)] *)
Fixpoint filterM (keep : JSON -> M bool) (l : list JSON) : M (list JSON) :=
  match l with
  | [] => ret []
  | x :: rest =>
      b <- keep x;
      rest' <- filterM keep rest;
      ret (if b then x :: rest' else rest')
  end.

Definition Array_filter (arr : JSON) (keep : JSON -> M bool) : M JSON :=
  match arr with
  | JArr items => l <- filterM keep items; ret (JArr l)
  | _ => throw TypeError
  end.

(** [arr.push(x)] on the array [Array_filter] returned. *)
Definition Array_push (arr : JSON) (x : JSON) : M JSON :=
  match arr with
  | JArr items => ret (JArr (items ++ [x]))
  | _ => throw TypeError
  end.

(** [arr.find(test)]: the first element the test accepts. *)
Fixpoint findM (test : JSON -> M bool) (l : list JSON) : M JSValue :=
  match l with
  | [] => ret undefined
  | x :: rest =>
      b <- test x;
      if b then ret (Some x) else findM test rest
  end.

Definition Array_find (arr : JSValue) (test : JSON -> M bool) : M JSValue :=
  match arr with
  | Some (JArr items) => findM test items
  | _ => throw TypeError
  end.

Fixpoint forEach {A} (body : A -> M unit) (l : list A) : M unit :=
  match l with
  | [] => ret tt
  | x :: rest => body x ;; forEach body rest
  end.

(** [for (const x of v)]: arrays and strings are the iterable values. *)
Definition for_of (v : JSValue) (body : JSON -> M unit) : M unit :=
  match v with
  | Some (JArr items) => forEach body items
  | Some (JStr s) =>
      forEach body (map (fun c => JStr (String c EmptyString)) (list_ascii_of_string s))
  | _ => throw TypeError
  end.

(** [v.length === 0] *)
Definition length_is_zero (v : JSON) : M bool :=
  match v with
  | JNull => throw TypeError
  | JArr items => ret (match items with [] => true | _ => false end)
  | JStr s => ret (String.eqb s "")
  | JBool _ => ret false
  | JObj _ => ret false     (* a member named length holds no number *)
  end.

(** [!text] for a text that is a string or [null] ([None]). *)
Definition no_text (text : option string) : bool :=
  match text with
  | None => true
  | Some s => String.eqb s ""
  end.

(** The loop that prints the parts of a diff, the same in both files but for
    the prefix of a removed part. *)
Definition write_part (minus : string) (part : Change) : M unit :=
  if added part then stdout_write green ("++ " +:+ value part)
  else if removed part then stdout_write red (minus +:+ value part)
  else stdout_write grey (value part).

(** ** The second source file: the class behind the hand written dispatcher *)

Module Part000.
Section Gyst.
  Context `{JSONCodec}.
  Variable sha1_hex : string -> string.
  Variable diffLines : string -> string -> list Change.

Definition repoPath : string := ".gyst".

Definition init : M unit :=
  fs_mkdir_objects ;;
  try_catch
    (fs_writeFile_wx headPath "" ;;
     fs_writeFile_wx indexPath (JSON_stringify (JArr [])) ;;
     console_log ("Initialized empty Gyst repository in " +:+ repoPath))
    (fun _ => ret tt).

Definition hashObject (content : string) : string := sha1_hex content.

Definition updateStagingArea (filePath fileHash : string) : M unit :=
  index0 <- try_catch
              (text <- fs_readFile indexPath; JSON_parse_text text)
              (fun _ => ret (JArr []));
  (* Remove any existing entry for this path (to prevent duplicates) *)
  index1 <- Array_filter index0
              (fun entry =>
                 p <- member (Some entry) "path";
                 ret (negb (strict_eq p (Some (JStr filePath)))));
  index2 <- Array_push index1 (JObj [("path", JStr filePath); ("hash", JStr fileHash)]);
  fs_writeFile indexPath (JSON_stringify_2 index2).

Definition add (fileToBeAdded : string) : M unit :=
  init ;;
  fileData <- try_catch
                (fs_readFile (workPath fileToBeAdded))
                (fun _ =>
                   console_error ("Error: cannot read file '" +:+ fileToBeAdded +:+ "'.") ;;
                   process_exit 1);
  let fileHash := hashObject fileData in
  fs_writeFile (objectPath fileHash) fileData ;;
  updateStagingArea fileToBeAdded fileHash ;;
  console_log ("Added file: " +:+ fileToBeAdded).

(** A string or [null]. *)
Definition getCurrentHead : M JSON :=
  try_catch
    (head <- fs_readFile headPath;
     ret (if String.eqb (trim head) "" then JNull else JStr (trim head)))
    (fun _ => ret JNull).

(** [now] is the value of [new Date().toISOString()]. *)
Definition commit (now message : string) : M unit :=
  init ;;
  index0 <- try_catch
              (text <- fs_readFile indexPath; JSON_parse_text text)
              (fun _ => ret (JArr []));
  empty <- length_is_zero index0;
  (if empty
   then console_error "No changes added to commit." ;; process_exit 1
   else ret tt) ;;
  head <- getCurrentHead;
  let parentCommit := if truthy (Some head) then head else JNull in
  let commitData :=
    JObj [("timeStamp", JStr now); ("message", JStr message);
          ("files", index0); ("parent", parentCommit)] in
  let commitHash := hashObject (JSON_stringify commitData) in
  fs_writeFile (objectPath commitHash) (JSON_stringify_2 commitData) ;;
  fs_writeFile headPath commitHash ;;
  fs_writeFile indexPath (JSON_stringify_2 (JArr [])) ;;
  console_log ("Commit successfully created: " +:+ commitHash).

(** The [while (current)] loop of [log]. *)
Fixpoint log_while (fuel : nat) (current : JSValue) : M unit :=
  if truthy current then
    match fuel with
    | O => timeout
    | S fuel' =>
        p <- path_join_objects current;
        raw <- fs_readFile p;
        commitData <- JSON_parse_text raw;
        console_log ("_____________________" +:+ LF) ;;
        console_log ("Commit: " +:+ template current) ;;
        timeStamp <- member (Some commitData) "timeStamp";
        console_log ("Date:   " +:+ template timeStamp +:+ LF) ;;
        message <- member (Some commitData) "message";
        console_log ("    " +:+ template message +:+ LF) ;;
        parent <- member (Some commitData) "parent";
        log_while fuel' parent
    end
  else ret tt.

Definition log (fuel : nat) : M unit :=
  try_catch
    (fs_access headPath)
    (fun _ =>
       console_error "Error: no Gyst repository found. Did you run 'gyst init'?" ;;
       process_exit 1) ;;
  current <- getCurrentHead;
  if negb (truthy (Some current))
  then console_log "No commits yet."
  else log_while fuel (Some current).

(** A string, or [null] ([None]). *)
Definition getCommitRaw (hash : JSValue) : M (option string) :=
  commitPath <- path_join_objects hash;
  try_catch
    (text <- fs_readFile commitPath; ret (Some text))
    (fun _ => ret None).

Definition getFileContent (fileHash : JSValue) : M string :=
  objectPath <- path_join_objects fileHash;
  try_catch (fs_readFile objectPath) (fun _ => ret "").

(** A string, or [undefined] ([None]). *)
Definition getParentFileContent (parentCommitData : JSON) (filePath : JSValue)
  : M (option string) :=
  files <- member (Some parentCommitData) "files";
  parentFile <- Array_find files
                  (fun f => p <- member (Some f) "path"; ret (strict_eq p filePath));
  if truthy parentFile then
    h <- member parentFile "hash";
    content <- getFileContent h;
    ret (Some content)
  else ret None.

(** The body of the [for (const file of commitData.files)] loop. *)
Definition showCommitDiff_file (commitData : JSON) (file : JSON) : M unit :=
  p <- member (Some file) "path";
  console_log ("File: " +:+ template p) ;;
  h <- member (Some file) "hash";
  fileContent <- getFileContent h;
  console_log fileContent ;;
  parent <- member (Some commitData) "parent";
  if truthy parent then
    rawParent <- getCommitRaw parent;
    match rawParent with
    | Some text =>
        if String.eqb text "" then
          console_log ("  (Parent commit object missing.)" +:+ LF)
        else
          parentCommitData <- JSON_parse_text text;
          p' <- member (Some file) "path";
          parentFileContent <- getParentFileContent parentCommitData p';
          match parentFileContent with
          | Some old =>
              console_log (LF +:+ "Diff:") ;;
              forEach (write_part "--") (diffLines old fileContent) ;;
              console_log (LF)
          | None => console_log ("  (New file in this commit)" +:+ LF)
          end
    | None =>
        (* Parent commit missing, just skip diff *)
        console_log ("  (Parent commit object missing.)" +:+ LF)
    end
  else console_log ("  (First commit, no parent to diff against)" +:+ LF).

Definition showCommitDiff (commitHash : string) : M unit :=
  try_catch
    (fs_access headPath)
    (fun _ =>
       console_error "Error: no Gyst repository found. Did you run 'gyst init'?" ;;
       process_exit 1) ;;
  rawCurrent <- getCommitRaw (Some (JStr commitHash));
  match rawCurrent with
  | Some text =>
      if String.eqb text "" then
        console_error ("Commit " +:+ commitHash +:+ " not found.") ;; process_exit 1
      else
        commitData <- JSON_parse_text text;
        console_log ("Changes in commit " +:+ commitHash +:+ ":" +:+ LF) ;;
        files <- member (Some commitData) "files";
        for_of files (showCommitDiff_file commitData)
  | None =>
      console_error ("Commit " +:+ commitHash +:+ " not found.") ;; process_exit 1
  end.
(** The dispatcher at the end of the file.  [argv] is [process.argv] from
    its third element on; [paint] is the colouring of [chalk]; [fuel] and
    [now] are what [log] and [commit] are given. *)
Definition usage (paint : Chalk -> string -> string) (command : JSValue) : string :=
  paint red "Unknown command:" +:+ " " +:+ template command +:+ LF +:+ LF +:+ LF +:+
  "Usage:" +:+ LF +:+
  "  gyst init" +:+ LF +:+
  "  gyst add <file>" +:+ LF +:+
  "  gyst commit <message>" +:+ LF +:+
  "  gyst log" +:+ LF +:+
  "  gyst diff <commit-hash>" +:+ LF.

(** [args.join(" ")] *)
Fixpoint join_args (args : list string) : string :=
  match args with
  | [] => ""
  | [a] => a
  | a :: rest => a +:+ " " +:+ join_args rest
  end.

Definition main (paint : Chalk -> string -> string) (fuel : nat) (now : string)
    (argv : list string) : M unit :=
  match argv with
  | [] => console_log (usage paint undefined) ;; process_exit 0
  | command :: args =>
      if String.eqb command "init" then init
      else if String.eqb command "add" then
        match args with
        | [file] => add file
        | _ => console_error "Usage: gyst add <file>" ;; process_exit 1
        end
      else if String.eqb command "commit" then
        match args with
        | [] => console_error "Usage: gyst commit <message>" ;; process_exit 1
        | _ :: _ =>
            (* Join all remaining args as the commit message *)
            let msg := join_args args in
            commit now msg
        end
      else if String.eqb command "log" then log fuel
      else if String.eqb command "diff" then
        match args with
        | [commitHash] => showCommitDiff commitHash
        | _ => console_error "Usage: gyst diff <commit-hash>" ;; process_exit 1
        end
      else console_log (usage paint (Some (JStr command))) ;; process_exit 0
  end.
End Gyst.
End Part000.

(** ** [src/Gyst.js]: the class behind the commander based entry point

The constructor starts [init] without awaiting it; the methods are
embedded as they run on their own. *)

Module GystJs.
Section Gyst.
  Context `{JSONCodec}.
  Variable sha1_hex : string -> string.
  Variable diffLines : string -> string -> list Change.

Definition repoPath : string := ".gyst".

Definition init : M unit :=
  fs_mkdir_objects ;;
  try_catch
    (fs_writeFile_wx headPath "" ;;
     fs_writeFile_wx indexPath (JSON_stringify (JArr [])) ;;
     console_log ("Initialized empty Gyst repository in " +:+ repoPath))
    (fun _ => ret tt).

Definition hashObject (content : string) : string := sha1_hex content.

(** [JSON.parse(text)] where the text may be [null] ([None]): the argument
    is converted to the text [null], which parses to [null]. *)
Definition JSON_parse_nullable (text : option string) : M JSON :=
  match text with
  | Some t => JSON_parse_text t
  | None => ret JNull
  end.

Definition updateStagingArea (filePath fileHash : string) : M unit :=
  text <- fs_readFile indexPath;
  index0 <- JSON_parse_text text;
  index1 <- Array_push index0 (JObj [("path", JStr filePath); ("hash", JStr fileHash)]);
  fs_writeFile indexPath (JSON_stringify index1).

Definition add (fileToBeAdded : string) : M unit :=
  fileData <- fs_readFile (workPath fileToBeAdded);
  let fileHash := hashObject fileData in
  console_log fileHash ;;
  fs_writeFile (objectPath fileHash) fileData ;;
  updateStagingArea fileToBeAdded fileHash ;;
  console_log ("Added file: " +:+ fileToBeAdded).

(** A string or [null]. *)
Definition getCurrentHead : M JSON :=
  try_catch
    (head <- fs_readFile headPath; ret (JStr head))
    (fun _ => ret JNull).

(** [now] is the value of [new Date().toISOString()]. *)
Definition commit (now message : string) : M unit :=
  text <- fs_readFile indexPath;
  index0 <- JSON_parse_text text;
  parentCommit <- getCurrentHead;
  let commitData :=
    JObj [("timeStamp", JStr now); ("message", JStr message);
          ("files", index0); ("parent", parentCommit)] in
  let commitHash := hashObject (JSON_stringify commitData) in
  fs_writeFile (objectPath commitHash) (JSON_stringify commitData) ;;
  fs_writeFile headPath commitHash ;;
  fs_writeFile indexPath (JSON_stringify (JArr [])) ;;
  console_log ("Commit successfully created: " +:+ commitHash).

(** The [while (currentCommitHash)] loop of [log]. *)
Fixpoint log_while (fuel : nat) (currentCommitHash : JSValue) : M unit :=
  if truthy currentCommitHash then
    match fuel with
    | O => timeout
    | S fuel' =>
        p <- path_join_objects currentCommitHash;
        raw <- fs_readFile p;
        commitData <- JSON_parse_text raw;
        console_log ("_____________________" +:+ LF) ;;
        timeStamp <- member (Some commitData) "timeStamp";
        message <- member (Some commitData) "message";
        console_log ("Commit: " +:+ template currentCommitHash +:+ LF +:+
                     "Date: " +:+ template timeStamp +:+ LF +:+ LF +:+
                     template message +:+ LF +:+ LF) ;;
        parent <- member (Some commitData) "parent";
        log_while fuel' parent
    end
  else ret tt.

Definition log (fuel : nat) : M unit :=
  currentCommitHash <- getCurrentHead;
  log_while fuel (Some currentCommitHash).

(** A string, or [null] ([None]). *)
Definition getCommitData (commithash : JSValue) : M (option string) :=
  commitPath <- path_join_objects commithash;
  try_catch
    (text <- fs_readFile commitPath; ret (Some text))
    (fun error =>
       console_log_error
         ("Failed to read the commit data for " +:+ template commithash +:+ ":") error ;;
       ret None).

Definition getFileContent (fileHash : JSValue) : M string :=
  objectPath <- path_join_objects fileHash;
  fs_readFile objectPath.

(** A string, or [undefined] ([None]). *)
Definition getParentFileContent (parentCommitData : JSON) (filePath : JSValue)
  : M (option string) :=
  files <- member (Some parentCommitData) "files";
  parentFile <- Array_find files
                  (fun file => p <- member (Some file) "path"; ret (strict_eq p filePath));
  if truthy parentFile then
    h <- member parentFile "hash";
    content <- getFileContent h;
    ret (Some content)
  else ret None.

(** The body of the [for (const file of commitData.files)] loop. *)
Definition showCommitDiff_file (commitData : JSON) (file : JSON) : M unit :=
  p <- member (Some file) "path";
  console_log ("File: " +:+ template p) ;;
  h <- member (Some file) "hash";
  fileContent <- getFileContent h;
  console_log fileContent ;;
  parent <- member (Some commitData) "parent";
  if truthy parent then
    rawParent <- getCommitData parent;
    parentCommitData <- JSON_parse_nullable rawParent;
    p' <- member (Some file) "path";
    parentFileContent <- getParentFileContent parentCommitData p';
    match parentFileContent with
    | Some old =>
        console_log (LF +:+ "Diff:") ;;
        forEach (write_part "-- ") (diffLines old fileContent) ;;
        console_log ""
    | None => console_log "New file in this commit"
    end
  else console_log "First commit".

Definition showCommitDiff (commitHash : string) : M unit :=
  raw <- getCommitData (Some (JStr commitHash));
  commitData <- JSON_parse_nullable raw;
  if negb (truthy (Some commitData)) then
    console_log ("Commit " +:+ commitHash +:+ " not found.")
  else
    console_log ("Changes in the last commit are" +:+ LF) ;;
    files <- member (Some commitData) "files";
    for_of files (showCommitDiff_file commitData).
End Gyst.
End GystJs.

(** ** A reference codec

A printer and a parser of the JSON text the programs write, used to run
the programs on concrete repositories.  The printer follows
[JSON.stringify], with and without the indentation of two blanks; the
parser reads what the printer writes, white space between tokens, and
the escapes of ASCII characters. *)

Module RefJSON.
  #[local] Open Scope nat_scope.

Definition is_ws (c : ascii) : bool :=
  Ascii.eqb c " " || Ascii.eqb c (ascii_of_nat 10)
  || Ascii.eqb c (ascii_of_nat 13) || Ascii.eqb c (ascii_of_nat 9).

Fixpoint skip_ws (s : string) : string :=
  match s with
  | String c s' => if is_ws c then skip_ws s' else s
  | EmptyString => EmptyString
  end.

Definition hex_digit (n : nat) : ascii :=
  nth n (list_ascii_of_string "0123456789abcdef") "0"%char.

Definition hex_value (c : ascii) : option nat :=
  let n := nat_of_ascii c in
  if (48 <=? n) && (n <=? 57) then Some (n - 48)
  else if (97 <=? n) && (n <=? 102) then Some (n - 87)
  else if (65 <=? n) && (n <=? 70) then Some (n - 55)
  else None.

(** The text [JSON.stringify] writes for one character of a string,
    followed by [k]. *)
Definition escape_char (c : ascii) (k : string) : string :=
  let n := nat_of_ascii c in
  if n =? 34 then String "\" (String dquote k)
  else if n =? 92 then String "\" (String "\" k)
  else if n =? 8 then String "\" (String "b" k)
  else if n =? 9 then String "\" (String "t" k)
  else if n =? 10 then String "\" (String "n" k)
  else if n =? 12 then String "\" (String "f" k)
  else if n =? 13 then String "\" (String "r" k)
  else if n <? 32 then
    String "\" (String "u" (String "0" (String "0"
      (String (hex_digit (n / 16)) (String (hex_digit (n mod 16)) k)))))
  else String c k.

Fixpoint escape (s : string) (k : string) : string :=
  match s with
  | EmptyString => k
  | String c s' => escape_char c (escape s' k)
  end.

Definition quote (s : string) (k : string) : string :=
  String dquote (escape s (String dquote k)).

Definition cons_char (c : ascii) (r : option (string * string)) : option (string * string) :=
  match r with
  | Some (s, rest) => Some (String c s, rest)
  | None => None
  end.

(** Reads a string after its opening quote: the characters and the text
    after the closing quote. *)
Fixpoint parse_chars (s : string) : option (string * string) :=
  match s with
  | EmptyString => None
  | String c s' =>
      let n := nat_of_ascii c in
      if n =? 34 then Some (EmptyString, s')
      else if n =? 92 then
        match s' with
        | EmptyString => None
        | String e s'' =>
            let m := nat_of_ascii e in
            if m =? 34 then cons_char dquote (parse_chars s'')
            else if m =? 92 then cons_char "\" (parse_chars s'')
            else if m =? 47 then cons_char "/" (parse_chars s'')
            else if m =? 98 then cons_char (ascii_of_nat 8) (parse_chars s'')
            else if m =? 116 then cons_char (ascii_of_nat 9) (parse_chars s'')
            else if m =? 110 then cons_char (ascii_of_nat 10) (parse_chars s'')
            else if m =? 102 then cons_char (ascii_of_nat 12) (parse_chars s'')
            else if m =? 114 then cons_char (ascii_of_nat 13) (parse_chars s'')
            else if m =? 117 then
              match s'' with
              | String h1 (String h2 (String h3 (String h4 r))) =>
                  match hex_value h1, hex_value h2, hex_value h3, hex_value h4 with
                  | Some a, Some b, Some c', Some d =>
                      let code := ((a * 16 + b) * 16 + c') * 16 + d in
                      if code <? 128 then cons_char (ascii_of_nat code) (parse_chars r)
                      else None
                  | _, _, _, _ => None
                  end
              | _ => None
              end
            else None
        end
      else if n <? 32 then None
      else cons_char c (parse_chars s')
  end.

Fixpoint blanks (n : nat) (k : string) : string :=
  match n with
  | O => k
  | S n' => String " " (blanks n' k)
  end.

(** The line break and indentation before a member at depth [d]. *)
Definition gap (indent : bool) (d : nat) (k : string) : string :=
  if indent then String (ascii_of_nat 10) (blanks (2 * d) k) else k.

Definition colon (indent : bool) (k : string) : string :=
  if indent then String ":" (String " " k) else String ":" k.

(** The elements after the first one, each behind its comma. *)
Definition sequence {A} (pr : A -> string -> string) (sep : string -> string)
  : list A -> string -> string :=
  fix go (l : list A) (k : string) : string :=
    match l with
    | [] => k
    | y :: ys => String "," (sep (pr y (go ys k)))
    end.

(** The text of [v] at depth [d], followed by [k]. *)
Fixpoint print_to (indent : bool) (d : nat) (v : JSON) (k : string) : string :=
  match v with
  | JNull => String "n" (String "u" (String "l" (String "l" k)))
  | JBool true => String "t" (String "r" (String "u" (String "e" k)))
  | JBool false => String "f" (String "a" (String "l" (String "s" (String "e" k))))
  | JStr s => quote s k
  | JArr [] => String "[" (String "]" k)
  | JArr (x :: xs) =>
      String "["
        (gap indent (S d)
           (print_to indent (S d) x
              (sequence (print_to indent (S d)) (gap indent (S d)) xs
                 (gap indent d (String "]" k)))))
  | JObj [] => String "{" (String "}" k)
  | JObj (m :: ms) =>
      String "{"
        (gap indent (S d)
           (quote (fst m) (colon indent
              (print_to indent (S d) (snd m)
                 (sequence
                    (fun m' k' =>
                       quote (fst m') (colon indent (print_to indent (S d) (snd m') k')))
                    (gap indent (S d)) ms
                    (gap indent d (String "}" k)))))))
  end.

(** Fuel that suffices to read back the text of [v]. *)
Fixpoint need (v : JSON) : nat :=
  match v with
  | JArr l => S (fold_right (fun x n => S (need x + n)) 0 l)
  | JObj ms => S (fold_right (fun m n => S (need (snd m) + n)) 0 ms)
  | _ => 1
  end.

Definition stringify (v : JSON) : string := print_to false 0 v EmptyString.
Definition stringify_2 (v : JSON) : string := print_to true 0 v EmptyString.

Definition next (s : string) : option (ascii * string) :=
  match skip_ws s with
  | String c r => Some (c, r)
  | EmptyString => None
  end.

Fixpoint parse_value (fuel : nat) (s : string) : option (JSON * string) :=
  match fuel with
  | O => None
  | S f =>
      match next s with
      | None => None
      | Some (c, r) =>
          if Ascii.eqb c "n" then
            match strip_prefix "ull" r with Some r' => Some (JNull, r') | None => None end
          else if Ascii.eqb c "t" then
            match strip_prefix "rue" r with Some r' => Some (JBool true, r') | None => None end
          else if Ascii.eqb c "f" then
            match strip_prefix "alse" r with Some r' => Some (JBool false, r') | None => None end
          else if Ascii.eqb c dquote then
            match parse_chars r with Some (str, r') => Some (JStr str, r') | None => None end
          else if Ascii.eqb c "[" then
            match next r with
            | None => None
            | Some (c2, r2) =>
                if Ascii.eqb c2 "]" then Some (JArr [], r2)
                else match parse_items f r with
                     | Some (l, r') => Some (JArr l, r')
                     | None => None
                     end
            end
          else if Ascii.eqb c "{" then
            match next r with
            | None => None
            | Some (c2, r2) =>
                if Ascii.eqb c2 "}" then Some (JObj [], r2)
                else match parse_members f r with
                     | Some (l, r') => Some (JObj l, r')
                     | None => None
                     end
            end
          else None
      end
  end
with parse_items (fuel : nat) (s : string) : option (list JSON * string) :=
  match fuel with
  | O => None
  | S f =>
      match parse_value f s with
      | None => None
      | Some (v, r1) =>
          match next r1 with
          | None => None
          | Some (c, r2) =>
              if Ascii.eqb c "," then
                match parse_items f r2 with
                | Some (l, r3) => Some (v :: l, r3)
                | None => None
                end
              else if Ascii.eqb c "]" then Some ([v], r2)
              else None
          end
      end
  end
with parse_members (fuel : nat) (s : string) : option (list (string * JSON) * string) :=
  match fuel with
  | O => None
  | S f =>
      match next s with
      | None => None
      | Some (q, r0) =>
          if Ascii.eqb q dquote then
            match parse_chars r0 with
            | None => None
            | Some (key, r1) =>
                match next r1 with
                | None => None
                | Some (c1, r2) =>
                    if Ascii.eqb c1 ":" then
                      match parse_value f r2 with
                      | None => None
                      | Some (v, r3) =>
                          match next r3 with
                          | None => None
                          | Some (c, r4) =>
                              if Ascii.eqb c "," then
                                match parse_members f r4 with
                                | Some (l, r5) => Some ((key, v) :: l, r5)
                                | None => None
                                end
                              else if Ascii.eqb c "}" then Some ([(key, v)], r4)
                              else None
                          end
                      end
                    else None
                end
            end
          else None
      end
  end.

Definition parse (s : string) : option JSON :=
  match parse_value (S (String.length s)) s with
  | Some (v, r) =>
      match skip_ws r with
      | EmptyString => Some v
      | String _ _ => None
      end
  | None => None
  end.

End RefJSON.

(** ** The diff renderer *)

Module DiffRenderer.

Inductive Kind : Type := Equal | Added | Removed.

Definition Kind_eqb (a b : Kind) : bool :=
  match a, b with
  | Equal, Equal | Added, Added | Removed, Removed => true
  | _, _ => false
  end.

Record Run : Type := mkRun { kind : Kind; text : string }.

(** The lines of a text: the pieces between line feeds, each but the last
    with its line feed, so that the lines put together are the text. *)
Fixpoint lines (s : string) : list string :=
  match s with
  | EmptyString => [EmptyString]
  | String c s' =>
      if Ascii.eqb c (ascii_of_nat 10) then String c EmptyString :: lines s'
      else match lines s' with
           | l :: ls => String c l :: ls
           | [] => [String c EmptyString]
           end
  end.

(** Edits of an edit script that are no [Equal]. *)
Definition cost (ops : list (Kind * string)) : nat :=
  length (filter (fun op => negb (Kind_eqb (fst op) Equal)) ops).

(** An edit script with the fewest added and removed lines (the lines kept
    are a longest common subsequence); at a divergence the removed lines
    come before the added ones. *)
Fixpoint script (old : list string) : list string -> list (Kind * string) :=
  fix script_new (new : list string) : list (Kind * string) :=
    match old, new with
    | [], _ => map (fun l => (Added, l)) new
    | _, [] => map (fun l => (Removed, l)) old
    | x :: old', y :: new' =>
        if String.eqb x y then (Equal, x) :: script old' new'
        else
          let del := (Removed, x) :: script old' new in
          let ins := (Added, y) :: script_new new' in
          if (cost del <=? cost ins)%nat then del else ins
    end.

(** Maximal runs of edits of one kind, in the order of the script. *)
Fixpoint runs (ops : list (Kind * string)) : list Run :=
  match ops with
  | [] => []
  | (k, l) :: rest =>
      match runs rest with
      | r :: rs =>
          if Kind_eqb (kind r) k then mkRun k (l +:+ text r) :: rs
          else mkRun k l :: r :: rs
      | [] => [mkRun k l]
      end
  end.

(** Modelled from the spec: [diffLines] of the package [diff], the line
    diff behind [render], is no code of this repository.  The spec (4.4):
    the content is split into lines; a minimal, LCS based edit script
    turns the lines of the old text into the lines of the new text; the
    result is the maximal contiguous runs of equal, added or removed
    lines in document order. *)
Definition render (oldText newText : string) : list Run :=
  runs (script (lines oldText) (lines newText)).

(** A run as the part that the printing loop of [showCommitDiff] reads. *)
Definition part (r : Run) : Change :=
  mkChange (text r) (Kind_eqb (kind r) Added) (Kind_eqb (kind r) Removed).

Definition diffLines (oldText newText : string) : list Change :=
  map part (render oldText newText).

End DiffRenderer.

(** ** Definitions used to state the properties *)


(** A repository right after [init], in an empty working tree. *)
Definition fresh : World :=
  mkWorld ∅ ∅ (Some "") (Some "[]") [] [].

(** The digest used to run the programs on concrete repositories: any
    function of the content will do, this one keeps the content visible. *)
Definition toy_digest (content : string) : string := "sha1(" +:+ content +:+ ")".

(** [v.k] as a function, for a value that is not [null]. *)
Definition field (v : JSON) (k : string) : JSValue :=
  match v with
  | JObj ms => assoc k ms
  | _ => None
  end.

Definition entry (path hash : string) : JSON :=
  JObj [("path", JStr path); ("hash", JStr hash)].

(** The entries of an index for one path: [index.filter(e => e.path === p)]. *)
Definition entries_for (p : string) (l : list JSON) : list JSON :=
  List.filter (fun e => strict_eq (field e "path") (Some (JStr p))) l.

Definition staged (w : World) `{JSONCodec} : option JSON :=
  match index w with
  | Some text => JSON_parse text
  | None => None
  end.


(** The world after printing [outs]. *)
Definition prints (outs : list Out) (w : World) : World :=
  mkWorld (worktree w) (objects w) (HEAD w) (index w) (journal w) (console w ++ outs).


(** The commits reached from [cur] through the parent fields: each one is
    stored under its digest and parses to a value that is not [null]; the
    parent of the last one is [tail]. *)
Fixpoint history `{JSONCodec} (objs : gmap string string) (cur : JSValue)
    (cs : list (string * JSON)) (tail : JSValue) : Prop :=
  match cs with
  | [] => cur = tail
  | (h, c) :: rest =>
      cur = Some (JStr h) /\ h <> "" /\
      match objs !! h with
      | Some raw => JSON_parse raw = Some c
      | None => False
      end /\
      c <> JNull /\
      history objs (field c "parent") rest tail
  end.

(** What [log] of the second file prints for one commit. *)
Definition log_entry_000 (hc : string * JSON) : list Out :=
  [ Log ("_____________________" +:+ LF);
    Log ("Commit: " +:+ fst hc);
    Log ("Date:   " +:+ template (field (snd hc) "timeStamp") +:+ LF);
    Log ("    " +:+ template (field (snd hc) "message") +:+ LF) ].

(** What [log] of [src/Gyst.js] prints for one commit. *)
Definition log_entry_js (hc : string * JSON) : list Out :=
  [ Log ("_____________________" +:+ LF);
    Log ("Commit: " +:+ fst hc +:+ LF +:+
         "Date: " +:+ template (field (snd hc) "timeStamp") +:+ LF +:+ LF +:+
         template (field (snd hc) "message") +:+ LF +:+ LF) ].

(** The index as both [updateStagingArea] and [commit] of the second file
    load it: an absent or unreadable index is the empty array. *)
Definition load_index `{JSONCodec} (w : World) : JSON :=
  match staged w with
  | Some v => v
  | None => JArr []
  end.

(** [entry => entry.path !== filePath], on an entry that is not [null]. *)
Definition other_path (filePath : string) (e : JSON) : bool :=
  negb (strict_eq (field e "path") (Some (JStr filePath))).

(** The content [getFileContent] returns for the file of an entry: the
    second file reads a lost blob as the empty text, [src/Gyst.js] fails on
    it. *)
Definition read_blob_000 (objs : gmap string string) (e : JSON) : option string :=
  match field e "hash" with
  | Some (JStr name) =>
      Some (match objs !! name with Some content => content | None => "" end)
  | _ => None
  end.

Definition read_blob_js (objs : gmap string string) (e : JSON) : option string :=
  match field e "hash" with
  | Some (JStr name) => objs !! name
  | _ => None
  end.

Definition text_of (content : option string) : string :=
  match content with
  | Some c => c
  | None => ""
  end.

(** What [showCommitDiff] prints for a file that it does not diff: the
    path, the content and a note. *)
Definition file_report_000 (objs : gmap string string) (note : string) (e : JSON)
  : list Out :=
  [ Log ("File: " +:+ template (field e "path"));
    Log (text_of (read_blob_000 objs e));
    Log note ].

Definition file_report_js (objs : gmap string string) (note : string) (e : JSON)
  : list Out :=
  [ Log ("File: " +:+ template (field e "path"));
    Log (text_of (read_blob_js objs e));
    Log note ].

Definition note_first_000 : string :=
  "  (First commit, no parent to diff against)" +:+ LF.
Definition note_first_js : string := "First commit".
Definition note_missing_000 : string := "  (Parent commit object missing.)" +:+ LF.



(** The operations of a repository, as the command line offers them; the
    time stamp of a commit and the fuel of a walk are part of the
    operation. *)
Inductive operation : Type :=
| op_init
| op_add (file : string)
| op_commit (now message : string)
| op_log (fuel : nat)
| op_show (commitHash : string).

Definition perform_000 `{JSONCodec} (sha1_hex : string -> string)
    (diffLines : string -> string -> list Change) (o : operation) : M unit :=
  match o with
  | op_init => Part000.init
  | op_add file => Part000.add sha1_hex file
  | op_commit now message => Part000.commit sha1_hex now message
  | op_log fuel => Part000.log fuel
  | op_show commitHash => Part000.showCommitDiff diffLines commitHash
  end.

Definition perform_js `{JSONCodec} (sha1_hex : string -> string)
    (diffLines : string -> string -> list Change) (o : operation) : M unit :=
  match o with
  | op_init => GystJs.init
  | op_add file => GystJs.add sha1_hex file
  | op_commit now message => GystJs.commit sha1_hex now message
  | op_log fuel => GystJs.log fuel
  | op_show commitHash => GystJs.showCommitDiff diffLines commitHash
  end.


(** * Proofs *)

(** ** The reference codec is a codec *)

(** Induction on JSON values that reaches the elements of arrays and the
    members of objects. *)
Lemma JSON_ind (P : JSON -> Prop)
    (Hnull : P JNull)
    (Hbool : forall b, P (JBool b))
    (Hstr : forall s, P (JStr s))
    (Harr : forall l, Forall P l -> P (JArr l))
    (Hobj : forall ms, Forall (fun m => P (snd m)) ms -> P (JObj ms)) :
  forall v, P v.
Proof.
  fix IH 1. intros [ | b | s | l | ms ].
  - exact Hnull.
  - apply Hbool.
  - apply Hstr.
  - apply Harr. induction l as [ | x l IHl ]; constructor; [ apply IH | exact IHl ].
  - apply Hobj. induction ms as [ | m ms IHms ]; constructor; [ apply IH | exact IHms ].
Qed.

Module RefJSONFacts.
  Import RefJSON.
  #[local] Open Scope nat_scope.

Lemma next_gap indent d s : next (gap indent d s) = next s.
Proof.
  unfold next, gap. destruct indent; [ | reflexivity ].
  simpl skip_ws. generalize (d + (d + 0)). intros n.
  induction n as [ | n IHn ]; simpl; auto.
Qed.

Lemma parse_value_gap f indent d s :
  parse_value f (gap indent d s) = parse_value f s.
Proof. destruct f; simpl; [ reflexivity | ]. now rewrite next_gap. Qed.

Lemma parse_chars_escape_char c k :
  parse_chars (escape_char c k) = cons_char c (parse_chars k).
Proof.
  destruct c as [[] [] [] [] [] [] [] []]; reflexivity.
Qed.

Lemma parse_chars_escape s k :
  parse_chars (escape s (String dquote k)) = Some (s, k).
Proof.
  induction s as [ | c s IHs ]; simpl.
  - reflexivity.
  - rewrite parse_chars_escape_char, IHs. reflexivity.
Qed.

Definition first_char (v : JSON) : ascii :=
  match v with
  | JNull => "n"
  | JBool true => "t"
  | JBool false => "f"
  | JStr _ => dquote
  | JArr _ => "["
  | JObj _ => "{"
  end.

Lemma next_print_to indent d v k :
  exists r, next (print_to indent d v k) = Some (first_char v, r)
            /\ print_to indent d v k = String (first_char v) r.
Proof.
  destruct v as [ | [] | s | [ | x l ] | [ | m ms ] ]; simpl; eauto.
Qed.

Lemma next_quote s k :
  next (quote s k) = Some (dquote, escape s (String dquote k)).
Proof. reflexivity. Qed.

Lemma next_colon indent k : next (colon indent k) = Some (":"%char, if indent then String " " k else k).
Proof. destruct indent; reflexivity. Qed.

Lemma parse_value_blank f k : parse_value f (String " " k) = parse_value f k.
Proof. destruct f; reflexivity. Qed.

Lemma parse_items_eq f s :
  parse_items (S f) s =
  match parse_value f s with
  | None => None
  | Some (v, r1) =>
      match next r1 with
      | None => None
      | Some (c, r2) =>
          if Ascii.eqb c "," then
            match parse_items f r2 with
            | Some (l, r3) => Some (v :: l, r3)
            | None => None
            end
          else if Ascii.eqb c "]" then Some ([v], r2)
          else None
      end
  end.
Proof. reflexivity. Qed.

Lemma next_char c s : is_ws c = false -> next (String c s) = Some (c, s).
Proof. intros Hc. unfold next. simpl. now rewrite Hc. Qed.

Section Items.
  Variables (indent : bool) (d : nat).

Lemma parse_items_sequence (l : list JSON) :
  Forall (fun v => forall d k f, need v <= f ->
            parse_value f (print_to indent d v k) = Some (v, k)) l ->
  forall x k f,
    (forall k, parse_value f (print_to indent (S d) x k) = Some (x, k)) ->
    fold_right (fun x n => S (need x + n)) 0 l <= f ->
    parse_items (S f)
      (gap indent (S d)
         (print_to indent (S d) x
            (sequence (print_to indent (S d)) (gap indent (S d)) l
               (gap indent d (String "]" k)))))
    = Some (x :: l, k).
Proof.
  induction 1 as [ | y l Hy Hl IH ]; intros x k f Hx Hf.
  - simpl. rewrite parse_value_gap, Hx, next_gap. reflexivity.
  - simpl in Hf. destruct f as [ | f ]; [ lia | ].
    rewrite parse_items_eq, parse_value_gap, Hx.
    cbn [sequence]. rewrite next_char by reflexivity.
    change (Ascii.eqb "," ",") with true. cbn iota.
    rewrite IH; [ reflexivity | | lia ].
    intros k'. apply Hy. lia.
Qed.

Lemma parse_members_eq f s :
  parse_members (S f) s =
  match next s with
  | None => None
  | Some (q, r0) =>
      if Ascii.eqb q dquote then
        match parse_chars r0 with
        | None => None
        | Some (key, r1) =>
            match next r1 with
            | None => None
            | Some (c1, r2) =>
                if Ascii.eqb c1 ":" then
                  match parse_value f r2 with
                  | None => None
                  | Some (v, r3) =>
                      match next r3 with
                      | None => None
                      | Some (c, r4) =>
                          if Ascii.eqb c "," then
                            match parse_members f r4 with
                            | Some (l, r5) => Some ((key, v) :: l, r5)
                            | None => None
                            end
                          else if Ascii.eqb c "}" then Some ([(key, v)], r4)
                          else None
                      end
                  end
                else None
            end
        end
      else None
  end.
Proof. reflexivity. Qed.

Lemma parse_value_colon f v k :
  (forall k, parse_value f (print_to indent (S d) v k) = Some (v, k)) ->
  parse_value f (if indent then String " " (print_to indent (S d) v k)
                 else print_to indent (S d) v k) = Some (v, k).
Proof. intros Hv. destruct indent; [ rewrite parse_value_blank | ]; apply Hv. Qed.

Lemma parse_members_sequence (ms : list (string * JSON)) :
  Forall (fun m => forall d k f, need (snd m) <= f ->
            parse_value f (print_to indent d (snd m) k) = Some (snd m, k)) ms ->
  forall m k f,
    (forall k, parse_value f (print_to indent (S d) (snd m) k) = Some (snd m, k)) ->
    fold_right (fun m n => S (need (snd m) + n)) 0 ms <= f ->
    parse_members (S f)
      (gap indent (S d)
         (quote (fst m) (colon indent
            (print_to indent (S d) (snd m)
               (sequence
                  (fun m' k' =>
                     quote (fst m') (colon indent (print_to indent (S d) (snd m') k')))
                  (gap indent (S d)) ms
                  (gap indent d (String "}" k)))))))
    = Some (m :: ms, k).
Proof.
  induction 1 as [ | y l Hy Hl IH ]; intros [key x] k f Hx Hf.
  - rewrite parse_members_eq, next_gap, next_quote.
    change (Ascii.eqb dquote dquote) with true. cbn iota.
    rewrite parse_chars_escape, next_colon.
    change (Ascii.eqb ":" ":") with true. cbn iota.
    rewrite parse_value_colon by exact Hx.
    cbn [sequence]. rewrite next_gap. reflexivity.
  - simpl in Hf. destruct f as [ | f ]; [ lia | ].
    rewrite parse_members_eq, next_gap, next_quote.
    change (Ascii.eqb dquote dquote) with true. cbn iota.
    rewrite parse_chars_escape, next_colon.
    change (Ascii.eqb ":" ":") with true. cbn iota.
    rewrite parse_value_colon by exact Hx.
    cbn [sequence]. rewrite next_char by reflexivity.
    change (Ascii.eqb "," ",") with true. cbn iota.
    rewrite IH; [ reflexivity | | lia ].
    intros k'. apply Hy. lia.
Qed.
End Items.

Lemma parse_value_eq f s :
  parse_value (S f) s =
  match next s with
  | None => None
  | Some (c, r) =>
      if Ascii.eqb c "n" then
        match strip_prefix "ull" r with Some r' => Some (JNull, r') | None => None end
      else if Ascii.eqb c "t" then
        match strip_prefix "rue" r with Some r' => Some (JBool true, r') | None => None end
      else if Ascii.eqb c "f" then
        match strip_prefix "alse" r with Some r' => Some (JBool false, r') | None => None end
      else if Ascii.eqb c dquote then
        match parse_chars r with Some (str, r') => Some (JStr str, r') | None => None end
      else if Ascii.eqb c "[" then
        match next r with
        | None => None
        | Some (c2, r2) =>
            if Ascii.eqb c2 "]" then Some (JArr [], r2)
            else match parse_items f r with
                 | Some (l, r') => Some (JArr l, r')
                 | None => None
                 end
        end
      else if Ascii.eqb c "{" then
        match next r with
        | None => None
        | Some (c2, r2) =>
            if Ascii.eqb c2 "}" then Some (JObj [], r2)
            else match parse_members f r with
                 | Some (l, r') => Some (JObj l, r')
                 | None => None
                 end
        end
      else None
  end.
Proof. reflexivity. Qed.

Lemma first_char_not_close v :
  Ascii.eqb (first_char v) "]" = false /\ Ascii.eqb (first_char v) "}" = false.
Proof. destruct v as [ | [] | | | ]; split; reflexivity. Qed.

(** The parser reads back what the printer wrote, whatever follows. *)
Lemma parse_value_print_to v :
  forall indent d k f, need v <= f ->
    parse_value f (print_to indent d v k) = Some (v, k).
Proof.
  induction v as [ | b | s | l IH | ms IH ] using JSON_ind;
    intros indent d k [ | f ] Hf; simpl in Hf; try lia.
  - reflexivity.
  - destruct b; reflexivity.
  - rewrite parse_value_eq. cbn [print_to]. rewrite next_quote.
    cbn. rewrite parse_chars_escape. reflexivity.
  - destruct l as [ | x l ]; [ reflexivity | ].
    rewrite parse_value_eq. cbn [print_to].
    rewrite next_char by reflexivity. cbn.
    rewrite next_gap.
    destruct (next_print_to indent (S d) x
                (sequence (print_to indent (S d)) (gap indent (S d)) l
                   (gap indent d (String "]" k)))) as (r & Hr & _).
    rewrite Hr. rewrite (proj1 (first_char_not_close x)).
    destruct f as [ | f ]; [ simpl in Hf; lia | ].
    inversion IH as [ | ? ? Hx Hl ]; subst.
    rewrite (parse_items_sequence indent d l (Forall_impl _ _ _ Hl (fun v Hv => fun d k f => Hv indent d k f))).
    + reflexivity.
    + intros k'. apply Hx. simpl in Hf. lia.
    + simpl in Hf. lia.
  - destruct ms as [ | m ms ]; [ reflexivity | ].
    rewrite parse_value_eq. cbn [print_to].
    rewrite next_char by reflexivity. cbn.
    rewrite next_gap, next_quote.
    change (Ascii.eqb dquote "}") with false. cbn iota.
    destruct f as [ | f ]; [ simpl in Hf; lia | ].
    inversion IH as [ | ? ? Hx Hl ]; subst.
    rewrite (parse_members_sequence indent d ms (Forall_impl _ _ _ Hl (fun v Hv => fun d k f => Hv indent d k f))).
    + reflexivity.
    + intros k'. apply Hx. simpl in Hf. lia.
    + simpl in Hf. lia.
Qed.

Lemma length_gap indent d k : String.length k <= String.length (gap indent d k).
Proof.
  unfold gap. destruct indent; [ | lia ]. simpl.
  generalize (d + (d + 0)). intros n. induction n; simpl; lia.
Qed.

Lemma length_escape_char c k :
  S (String.length k) <= String.length (escape_char c k).
Proof.
  unfold escape_char.
  repeat match goal with |- context [if ?b then _ else _] => destruct b end;
    simpl; lia.
Qed.

Lemma length_quote s k : 2 + String.length k <= String.length (quote s k).
Proof.
  unfold quote. simpl. apply le_n_S.
  induction s as [ | c s IHs ]; simpl; [ lia | ].
  pose proof (length_escape_char c (escape s (String dquote k))). lia.
Qed.

Lemma length_colon indent k : String.length k <= String.length (colon indent k).
Proof. destruct indent; simpl; lia. Qed.

(** The fuel [need v] is at most the length of the text of [v]. *)
Lemma need_length v :
  forall indent d k,
    need v + String.length k <= String.length (print_to indent d v k).
Proof.
  induction v as [ | b | s | l IH | ms IH ] using JSON_ind; intros indent d k.
  - simpl. lia.
  - destruct b; simpl; lia.
  - pose proof (length_quote s k). cbn [print_to need]. lia.
  - destruct l as [ | x l ]; [ simpl; lia | ].
    inversion IH as [ | ? ? Hx Hl ]; subst.
    cbn [print_to need fold_right String.length].
    assert (Hseq : forall k0,
               fold_right (fun x n => S (need x + n)) 0 l + String.length k0
               <= String.length
                    (sequence (print_to indent (S d)) (gap indent (S d)) l k0)).
    { clear Hx IH. induction Hl as [ | y l Hy Hl IHl ]; intros k0; simpl; [ lia | ].
      pose proof (length_gap indent (S d)
                    (print_to indent (S d) y
                       (sequence (print_to indent (S d)) (gap indent (S d)) l k0))).
      pose proof (Hy indent (S d)
                    (sequence (print_to indent (S d)) (gap indent (S d)) l k0)).
      pose proof (IHl k0). lia. }
    pose proof (length_gap indent (S d)
                  (print_to indent (S d) x
                     (sequence (print_to indent (S d)) (gap indent (S d)) l
                        (gap indent d (String "]" k))))).
    pose proof (Hx indent (S d)
                  (sequence (print_to indent (S d)) (gap indent (S d)) l
                     (gap indent d (String "]" k)))).
    pose proof (Hseq (gap indent d (String "]" k))).
    pose proof (length_gap indent d (String "]" k)).
    cbn [String.length] in *. lia.
  - destruct ms as [ | m ms ]; [ simpl; lia | ].
    inversion IH as [ | ? ? Hx Hl ]; subst.
    cbn [print_to need fold_right String.length].
    set (pr := fun (m' : string * JSON) (k' : string) =>
                 quote (fst m') (colon indent (print_to indent (S d) (snd m') k'))).
    assert (Hpr : forall m', (forall indent d k,
                     need (snd m') + String.length k
                     <= String.length (print_to indent d (snd m') k)) ->
              forall k0, need (snd m') + String.length k0 <= String.length (pr m' k0)).
    { intros m' Hm k0. unfold pr.
      pose proof (length_quote (fst m') (colon indent (print_to indent (S d) (snd m') k0))).
      pose proof (length_colon indent (print_to indent (S d) (snd m') k0)).
      pose proof (Hm indent (S d) k0). lia. }
    assert (Hseq : forall k0,
               fold_right (fun m n => S (need (snd m) + n)) 0 ms + String.length k0
               <= String.length (sequence pr (gap indent (S d)) ms k0)).
    { clear Hx IH. induction Hl as [ | y l Hy Hl IHl ]; intros k0; simpl; [ lia | ].
      pose proof (length_gap indent (S d) (pr y (sequence pr (gap indent (S d)) l k0))).
      pose proof (Hpr y Hy (sequence pr (gap indent (S d)) l k0)).
      pose proof (IHl k0). lia. }
    pose proof (length_gap indent (S d)
                  (pr m (sequence pr (gap indent (S d)) ms (gap indent d (String "}" k))))).
    pose proof (Hpr m Hx (sequence pr (gap indent (S d)) ms (gap indent d (String "}" k)))).
    pose proof (Hseq (gap indent d (String "}" k))).
    pose proof (length_gap indent d (String "}" k)).
    cbn [String.length] in *.
    subst pr. cbn beta in *. lia.
Qed.

Lemma parse_print_to indent v : parse (print_to indent 0 v EmptyString) = Some v.
Proof.
  unfold parse. rewrite parse_value_print_to; [ reflexivity | ].
  pose proof (need_length v indent 0 EmptyString). lia.
Qed.
End RefJSONFacts.

#[export] Instance RefCodec : JSONCodec := {|
  JSON_stringify := RefJSON.stringify;
  JSON_stringify_2 := RefJSON.stringify_2;
  JSON_parse := RefJSON.parse;
  JSON_parse_empty := eq_refl;
  JSON_parse_stringify := RefJSONFacts.parse_print_to false;
  JSON_parse_stringify_2 := RefJSONFacts.parse_print_to true
|}.
(** ** The UTF-8 decoder

    The decoder puts out well-formed text, and leaves well-formed text as
    it is. *)

Lemma append_assoc_3 (a b c : string) : (a +:+ b) +:+ c = a +:+ (b +:+ c).
Proof.
  induction a as [ | x a IH ]; [ reflexivity | ].
  change (String x ((a +:+ b) +:+ c) = String x (a +:+ (b +:+ c))).
  now rewrite IH.
Qed.

Lemma lead_cases b n lo hi :
  lead b = Some (n, lo, hi) ->
  (b <? 128)%N = false /\ (n = 1 \/ n = 2 \/ n = 3).
Proof.
  unfold lead. intros Hl. split.
  - apply N.ltb_ge.
    repeat match type of Hl with
           | (if ?c then _ else _) = _ => destruct c eqn:?
           end; try discriminate;
      rewrite ?andb_true_iff, ?N.leb_le, ?N.eqb_eq in *; lia.
  - repeat match type of Hl with
           | (if ?c then _ else _) = _ => destruct c
           end; inversion Hl; auto.
Qed.

(** [cs] completes a sequence that still needs [n] bytes, the next one
    within [lo..hi]. *)
Fixpoint completes (n : nat) (lo hi : N) (cs : string) : Prop :=
  match n, cs with
  | 0, "" => True
  | S n', String c cs' => within lo hi c = true /\ completes n' 128%N 191%N cs'
  | _, _ => False
  end.

Definition pending (p : Partial) : Prop :=
  forall cs tail,
    completes (needed p) (lower p) (upper p) cs ->
    well_formed (seen p +:+ (cs +:+ tail)) = well_formed tail.

Lemma pending_lead a n lo hi :
  lead (N_of_ascii a) = Some (n, lo, hi) ->
  pending (mkPartial (String a "") n lo hi).
Proof.
  intros Hl cs tail Hcs. cbn [seen needed lower upper] in *.
  destruct (lead_cases _ _ _ _ Hl) as (Hb & Hn).
  change (String a "" +:+ (cs +:+ tail)) with (String a (cs +:+ tail)).
  destruct Hn as [ -> | [ -> | -> ] ];
    destruct cs as [ | c1 [ | c2 [ | c3 [ | c4 cs ] ] ] ]; cbn in Hcs;
    try tauto.
  - change (String c1 "" +:+ tail) with (String c1 tail).
    destruct Hcs as (H1 & _). cbn [well_formed]. now rewrite Hb, Hl, H1.
  - change (String c1 (String c2 "") +:+ tail) with (String c1 (String c2 tail)).
    destruct Hcs as (H1 & H2 & _). cbn [well_formed]. now rewrite Hb, Hl, H1, H2.
  - change (String c1 (String c2 (String c3 "")) +:+ tail)
      with (String c1 (String c2 (String c3 tail))).
    destruct Hcs as (H1 & H2 & H3 & _). cbn [well_formed].
    now rewrite Hb, Hl, H1, H2, H3.
Qed.

Lemma pending_next p a n :
  pending p -> needed p = S (S n) -> within (lower p) (upper p) a = true ->
  pending (mkPartial (seen p +:+ String a "") (S n) 128%N 191%N).
Proof.
  intros Hp Hn Ha cs tail Hcs. cbn [seen needed lower upper] in *.
  rewrite append_assoc_3.
  change (String a "" +:+ (cs +:+ tail)) with (String a cs +:+ tail).
  apply Hp. rewrite Hn. split; assumption.
Qed.


Lemma well_formed_replacement tail :
  well_formed (replacement +:+ tail) = well_formed tail.
Proof. reflexivity. Qed.

(** The state of the decoder between two bytes. *)
Definition state_ok (st : option Partial) : Prop :=
  match st with
  | None => True
  | Some p => pending p /\ 1 <= needed p
  end.

Lemma first_byte_ok a st out :
  first_byte a = (st, out) ->
  state_ok st /\ forall tail, well_formed (out +:+ tail) = well_formed tail.
Proof.
  unfold first_byte. destruct (N_of_ascii a <? 128)%N eqn:Hb.
  - intros [= <- <-]. split; [ exact I | ]. intros tail.
    change (String a "" +:+ tail) with (String a tail). cbn [well_formed].
    now rewrite Hb.
  - destruct (lead (N_of_ascii a)) as [ [ [ n lo ] hi ] | ] eqn:Hl.
    + intros [= <- <-]. split; [ | reflexivity ].
      split; [ now apply pending_lead | ].
      cbn [needed]. destruct (lead_cases _ _ _ _ Hl) as (_ & [ -> | [ -> | -> ] ]); lia.
    + intros [= <- <-]. split; [ exact I | ]. apply well_formed_replacement.
Qed.

(** What the decoder has put out, with what it is still to put out for a
    pending sequence, is well formed. *)
Lemma well_formed_decode_from s : forall st,
  state_ok st -> well_formed (decode_from st s) = true.
Proof.
  induction s as [ | a rest IH ]; intros st Hst.
  - destruct st; reflexivity.
  - cbn [decode_from]. destruct st as [ p | ]; cbn [next_byte].
    + destruct Hst as (Hp & Hn).
      destruct (within (lower p) (upper p) a) eqn:Ha.
      * destruct (needed p) as [ | [ | n ] ] eqn:Hneed; [ lia | | ].
        -- rewrite append_assoc_3.
           rewrite (Hp (String a "") (decode_from None rest)).
           ++ now apply IH.
           ++ rewrite Hneed. split; [ exact Ha | exact I ].
        -- change ("" +:+ ?x) with x. apply IH. split.
           ++ now apply (pending_next p a n).
           ++ cbn [needed]. lia.
      * destruct (first_byte a) as [ st' out ] eqn:Hf.
        destruct (first_byte_ok _ _ _ Hf) as (Hst' & Hout).
        rewrite append_assoc_3, well_formed_replacement, Hout. now apply IH.
    + destruct (first_byte a) as [ st' out ] eqn:Hf.
      destruct (first_byte_ok _ _ _ Hf) as (Hst' & Hout).
      rewrite Hout. now apply IH.
Qed.

(** What a read returns is well-formed text, whatever the file holds. *)
Theorem well_formed_utf8_decode s : well_formed (utf8_decode s) = true.
Proof. apply well_formed_decode_from. exact I. Qed.

(** A pending sequence and the bytes that complete it are put out as they
    are. *)
Lemma decode_from_completes n : forall lo hi sn cs tail,
  completes (S n) lo hi cs ->
  decode_from (Some (mkPartial sn (S n) lo hi)) (cs +:+ tail)
  = sn +:+ (cs +:+ decode_from None tail).
Proof.
  induction n as [ | n IH ]; intros lo hi sn cs tail Hcs;
    destruct cs as [ | c1 cs ]; cbn [completes] in Hcs; try tauto;
    destruct Hcs as (H1 & Hcs);
    change (String c1 cs +:+ tail) with (String c1 (cs +:+ tail));
    cbn [decode_from next_byte lower upper needed seen]; rewrite H1.
  - destruct cs; [ | contradiction ]. now rewrite append_assoc_3.
  - change ("" +:+ ?x) with x. rewrite (IH _ _ _ _ _ Hcs).
    now rewrite append_assoc_3.
Qed.

Lemma utf8_decode_fixed_length n : forall s,
  String.length s <= n -> well_formed s = true -> utf8_decode s = s.
Proof.
  induction n as [ | n IH ]; intros s Hlen Hwf.
  - destruct s; [ reflexivity | cbn in Hlen; lia ].
  - destruct s as [ | a r ]; [ reflexivity | ].
    cbn [String.length] in Hlen. cbn [well_formed] in Hwf.
    unfold utf8_decode. cbn [decode_from next_byte]. unfold first_byte.
    destruct (N_of_ascii a <? 128)%N eqn:Hb.
    + change (String a "" +:+ ?x) with (String a x). f_equal.
      apply IH; [ lia | exact Hwf ].
    + destruct (lead (N_of_ascii a)) as [ [ [ k lo ] hi ] | ] eqn:Hl; [ | discriminate ].
      change ("" +:+ ?x) with x.
      destruct (lead_cases _ _ _ _ Hl) as (_ & [ -> | [ -> | -> ] ]).
      * destruct r as [ | c1 r1 ]; [ discriminate | ].
        apply andb_prop in Hwf as (H1 & Hwf).
        etransitivity;
          [ apply (decode_from_completes 0 lo hi (String a "") (String c1 "") r1 (conj H1 I)) | ].
        change (String a "" +:+ (String c1 "" +:+ ?x)) with (String a (String c1 x)).
        do 2 f_equal. apply IH; [ cbn in Hlen; lia | exact Hwf ].
      * destruct r as [ | c1 [ | c2 r2 ] ]; try discriminate.
        apply andb_prop in Hwf as (H12 & Hwf). apply andb_prop in H12 as (H1 & H2).
        etransitivity;
          [ apply (decode_from_completes 1 lo hi (String a "") (String c1 (String c2 "")) r2
                   (conj H1 (conj H2 I))) | ].
        change (String a "" +:+ (String c1 (String c2 "") +:+ ?x))
          with (String a (String c1 (String c2 x))).
        do 3 f_equal. apply IH; [ cbn in Hlen; lia | exact Hwf ].
      * destruct r as [ | c1 [ | c2 [ | c3 r3 ] ] ]; try discriminate.
        apply andb_prop in Hwf as (H123 & Hwf). apply andb_prop in H123 as (H12 & H3).
        apply andb_prop in H12 as (H1 & H2).
        etransitivity;
          [ apply (decode_from_completes 2 lo hi (String a "")
                   (String c1 (String c2 (String c3 ""))) r3
                   (conj H1 (conj H2 (conj H3 I)))) | ].
        change (String a "" +:+ (String c1 (String c2 (String c3 "")) +:+ ?x))
          with (String a (String c1 (String c2 (String c3 x)))).
        do 4 f_equal. apply IH; [ cbn in Hlen; lia | exact Hwf ].
Qed.

(** Well-formed content is read as it is. *)
Theorem utf8_decode_well_formed s : well_formed s = true -> utf8_decode s = s.
Proof. apply (utf8_decode_fixed_length (String.length s)). lia. Qed.

(** Only well-formed content is read as it is. *)
Theorem utf8_decode_fixed s : utf8_decode s = s <-> well_formed s = true.
Proof.
  split.
  - intros <-. apply well_formed_utf8_decode.
  - apply utf8_decode_well_formed.
Qed.

(** Text that was read, and written to a file, is read back unchanged: a
    file that the program wrote is held in the model as the text written. *)
Theorem utf8_decode_idempotent s : utf8_decode (utf8_decode s) = utf8_decode s.
Proof. apply utf8_decode_well_formed, well_formed_utf8_decode. Qed.

(** Ill-formed bytes: a byte that starts no sequence, a sequence cut short
    by the next character, a surrogate (three bytes, each one ill formed),
    and a sequence cut short by the end of the file. *)
Example utf8_decode_ill_formed :
  utf8_decode (bytes [255]) = replacement
  /\ utf8_decode (bytes [104; 195; 108]) = "h" +:+ replacement +:+ "l"
  /\ utf8_decode (bytes [237; 160; 128]) = replacement +:+ replacement +:+ replacement
  /\ utf8_decode (bytes [104; 240; 159; 152]) = "h" +:+ replacement.
Proof. repeat split. Qed.

(** ** Reasoning about the programs *)

Lemma print_prints o w : print o w = prints [o] w.
Proof. reflexivity. Qed.

Lemma prints_prints a b w : prints b (prints a w) = prints (a ++ b) w.
Proof. unfold prints. simpl. now rewrite app_assoc. Qed.

Lemma prints_nil w : prints [] w = w.
Proof. destruct w. unfold prints. simpl. now rewrite app_nil_r. Qed.


Lemma member_field v k : v <> JNull -> member (Some v) k = ret (field v k).
Proof. destruct v; intros Hv; try reflexivity. congruence. Qed.

Lemma truthy_digest h : h <> "" -> truthy (Some (JStr h)) = true.
Proof.
  intros Hh. simpl. destruct (String.eqb_spec h ""); [ congruence | reflexivity ].
Qed.


Section Walk.
  Context `{JSONCodec}.



(** One turn of either loop on a stored commit. *)
Ltac walk_step Hh Hraw Hc Hnull :=
  rewrite (truthy_digest _ Hh);
  unfold bind at 1; cbn [path_join_objects ret];
  unfold bind at 1; unfold fs_readFile at 1; cbn [read]; rewrite Hraw;
  unfold bind at 1; unfold JSON_parse_text at 1; rewrite Hc; cbn [ret];
  rewrite !(member_field _ _ Hnull);
  unfold bind, console_log, ret; rewrite !print_prints, !prints_prints;
  reflexivity.

Lemma log_while_000_step fuel h c w raw :
  h <> "" -> objects w !! h = Some raw -> JSON_parse raw = Some c -> c <> JNull ->
  Part000.log_while (S fuel) (Some (JStr h)) w
  = Part000.log_while fuel (field c "parent") (prints (log_entry_000 (h, c)) w).
Proof.
  intros Hh Hraw Hc Hnull. cbn [Part000.log_while]. walk_step Hh Hraw Hc Hnull.
Qed.

Lemma log_while_js_step fuel h c w raw :
  h <> "" -> objects w !! h = Some raw -> JSON_parse raw = Some c -> c <> JNull ->
  GystJs.log_while (S fuel) (Some (JStr h)) w
  = GystJs.log_while fuel (field c "parent") (prints (log_entry_js (h, c)) w).
Proof.
  intros Hh Hraw Hc Hnull. cbn [GystJs.log_while]. walk_step Hh Hraw Hc Hnull.
Qed.

(** Walking a history of [n] commits takes [n] turns and leaves the loop
    at the parent of the last commit. *)
Lemma log_while_000_history cs :
  forall cur tail w fuel,
    history (objects w) cur cs tail ->
    Part000.log_while (length cs + fuel) cur w
    = Part000.log_while fuel tail (prints (flat_map log_entry_000 cs) w).
Proof.
  induction cs as [ | [h c] cs IH ]; intros cur tail w fuel Hhist.
  - simpl in Hhist. subst cur. simpl. now rewrite prints_nil.
  - simpl in Hhist. destruct Hhist as (-> & Hh & Hobj & Hnull & Hrest).
    destruct (objects w !! h) as [ raw | ] eqn:Hraw; [ | contradiction ].
    cbn [length Nat.add].
    rewrite (log_while_000_step _ h c w raw Hh Hraw Hobj Hnull).
    rewrite (IH _ tail) by exact Hrest.
    rewrite prints_prints. reflexivity.
Qed.

Lemma log_while_js_history cs :
  forall cur tail w fuel,
    history (objects w) cur cs tail ->
    GystJs.log_while (length cs + fuel) cur w
    = GystJs.log_while fuel tail (prints (flat_map log_entry_js cs) w).
Proof.
  induction cs as [ | [h c] cs IH ]; intros cur tail w fuel Hhist.
  - simpl in Hhist. subst cur. simpl. now rewrite prints_nil.
  - simpl in Hhist. destruct Hhist as (-> & Hh & Hobj & Hnull & Hrest).
    destruct (objects w !! h) as [ raw | ] eqn:Hraw; [ | contradiction ].
    cbn [length Nat.add].
    rewrite (log_while_js_step _ h c w raw Hh Hraw Hobj Hnull).
    rewrite (IH _ tail) by exact Hrest.
    rewrite prints_prints. reflexivity.
Qed.

Lemma log_while_000_done fuel tail w :
  truthy tail = false -> Part000.log_while fuel tail w = (Return tt, w).
Proof. intros Ht. destruct fuel; simpl; now rewrite Ht. Qed.

Lemma log_while_js_done fuel tail w :
  truthy tail = false -> GystJs.log_while fuel tail w = (Return tt, w).
Proof. intros Ht. destruct fuel; simpl; now rewrite Ht. Qed.

Lemma log_while_000_missing fuel p w :
  p <> "" -> objects w !! p = None ->
  Part000.log_while (S fuel) (Some (JStr p)) w = (Throw (ENOENT (objectPath p)), w).
Proof.
  intros Hp Hnone. cbn [Part000.log_while]. rewrite (truthy_digest p Hp).
  unfold bind at 1. cbn [path_join_objects ret].
  unfold bind at 1. unfold fs_readFile at 1. cbn [read]. now rewrite Hnone.
Qed.

Lemma log_while_js_missing fuel p w :
  p <> "" -> objects w !! p = None ->
  GystJs.log_while (S fuel) (Some (JStr p)) w = (Throw (ENOENT (objectPath p)), w).
Proof.
  intros Hp Hnone. cbn [GystJs.log_while]. rewrite (truthy_digest p Hp).
  unfold bind at 1. cbn [path_join_objects ret].
  unfold bind at 1. unfold fs_readFile at 1. cbn [read]. now rewrite Hnone.
Qed.

Lemma history_start objs h cs tail :
  history objs (Some (JStr h)) cs tail ->
  (cs <> [] \/ exists p, tail = Some (JStr p) /\ p <> "") -> h <> "".
Proof.
  destruct cs as [ | [h' c] cs ]; simpl.
  - intros <- [ Hcs | (p & [= ->] & Hp) ]; congruence.
  - intros ([= ->] & Hh & _) _. exact Hh.
Qed.

(** [log] of the second file starts its loop at the digest in HEAD. *)
Lemma log_000_start fuel w h :
  HEAD w = Some h -> trim h = h -> h <> "" ->
  Part000.log fuel w = Part000.log_while fuel (Some (JStr h)) w.
Proof.
  intros Hhead Htrim Hh. unfold Part000.log, Part000.getCurrentHead.
  unfold bind, try_catch, fs_access, fs_readFile, ret. cbn [read].
  rewrite Hhead. cbn beta iota. rewrite Hhead. cbn beta iota. rewrite Htrim.
  destruct (String.eqb_spec h ""); [ congruence | ].
  rewrite (truthy_digest h Hh). reflexivity.
Qed.

Lemma log_js_start fuel w h :
  HEAD w = Some h ->
  GystJs.log fuel w = GystJs.log_while fuel (Some (JStr h)) w.
Proof.
  intros Hhead. unfold GystJs.log, GystJs.getCurrentHead.
  unfold bind, try_catch, fs_readFile, ret. cbn [read].
  now rewrite Hhead.
Qed.
End Walk.

(** C8. From a HEAD digest that starts a history of [n] stored commits whose
    last parent is [null] (or any other value that ends the loop), [log]
    prints these [n] commits, from HEAD to the root, and returns; [n] turns
    of the loop suffice.  Both files. *)
Theorem C8_history_walk_terminates `{JSONCodec} (w : World) (h : string)
    (cs : list (string * JSON)) (tail : JSValue) (fuel : nat) :
  HEAD w = Some h -> trim h = h -> cs <> [] ->
  history (objects w) (Some (JStr h)) cs tail ->
  truthy tail = false ->
  length cs <= fuel ->
  Part000.log fuel w = (Return tt, prints (flat_map log_entry_000 cs) w)
  /\ GystJs.log fuel w = (Return tt, prints (flat_map log_entry_js cs) w).
Proof.
  intros Hhead Htrim Hcs Hhist Htail Hfuel.
  assert (Hh : h <> "") by (eapply history_start; eauto).
  replace fuel with (length cs + (fuel - length cs)) by lia.
  split.
  - rewrite (log_000_start _ w h Hhead Htrim Hh).
    rewrite (log_while_000_history cs _ tail) by exact Hhist.
    now apply log_while_000_done.
  - rewrite (log_js_start _ w h Hhead).
    rewrite (log_while_js_history cs _ tail) by exact Hhist.
    now apply log_while_js_done.
Qed.

(** C5, amended. When the digest in HEAD, or the parent of a commit reached
    later, names no stored object, [log] prints the commits before it and
    then fails with the error of the read ([ENOENT]), which propagates: no
    warning is printed, and the two cases are not told apart.  Both files. *)
Theorem C5_missing_object_propagates `{JSONCodec} (w : World) (h : string)
    (cs : list (string * JSON)) (p : string) (fuel : nat) :
  HEAD w = Some h -> trim h = h ->
  history (objects w) (Some (JStr h)) cs (Some (JStr p)) ->
  p <> "" -> objects w !! p = None ->
  length cs < fuel ->
  Part000.log fuel w
  = (Throw (ENOENT (objectPath p)), prints (flat_map log_entry_000 cs) w)
  /\ GystJs.log fuel w
     = (Throw (ENOENT (objectPath p)), prints (flat_map log_entry_js cs) w).
Proof.
  intros Hhead Htrim Hhist Hp Hnone Hfuel.
  assert (Hh : h <> "") by (eapply history_start; eauto).
  replace fuel with (length cs + S (fuel - S (length cs))) by lia.
  split.
  - rewrite (log_000_start _ w h Hhead Htrim Hh).
    rewrite (log_while_000_history cs _ (Some (JStr p))) by exact Hhist.
    now apply log_while_000_missing.
  - rewrite (log_js_start _ w h Hhead).
    rewrite (log_while_js_history cs _ (Some (JStr p))) by exact Hhist.
    now apply log_while_js_missing.
Qed.

(** ** Running a program step by step *)

Lemma run_bind {A B} (m : M A) (k : A -> M B) w a w1 r :
  m w = (Return a, w1) -> k a w1 = r -> bind m k w = r.
Proof. intros Hm Hk. unfold bind. now rewrite Hm. Qed.

Lemma run_bind_Throw {A B} (m : M A) (k : A -> M B) w e w1 :
  m w = (Throw e, w1) -> bind m k w = (Throw e, w1).
Proof. intros Hm. unfold bind. now rewrite Hm. Qed.

Lemma run_bind_Exit {A B} (m : M A) (k : A -> M B) w c w1 :
  m w = (Exit c, w1) -> bind m k w = (Exit c, w1).
Proof. intros Hm. unfold bind. now rewrite Hm. Qed.

Lemma run_try_Return {A} (m : M A) (h : Error -> M A) w a w1 :
  m w = (Return a, w1) -> try_catch m h w = (Return a, w1).
Proof. intros Hm. unfold try_catch. now rewrite Hm. Qed.

Lemma run_try_Throw {A} (m : M A) (h : Error -> M A) w e w1 r :
  m w = (Throw e, w1) -> h e w1 = r -> try_catch m h w = r.
Proof. intros Hm Hh. unfold try_catch. now rewrite Hm. Qed.

Lemma run_ret {A} (a : A) w : ret a w = (Return a, w).
Proof. reflexivity. Qed.

Lemma run_console_log line outs w :
  console_log line (prints outs w) = (Return tt, prints (outs ++ [Log line]) w).
Proof. unfold console_log. now rewrite print_prints, prints_prints. Qed.

Lemma run_console_error line outs w :
  console_error line (prints outs w) = (Return tt, prints (outs ++ [Err line]) w).
Proof. unfold console_error. now rewrite print_prints, prints_prints. Qed.

Lemma run_console_log_error line e outs w :
  console_log_error line e (prints outs w)
  = (Return tt, prints (outs ++ [LogError line e]) w).
Proof. unfold console_log_error. now rewrite print_prints, prints_prints. Qed.

Lemma run_stdout_write style text outs w :
  stdout_write style text (prints outs w)
  = (Return tt, prints (outs ++ [Stdout style text]) w).
Proof. unfold stdout_write. now rewrite print_prints, prints_prints. Qed.

Lemma read_prints outs w p : read (prints outs w) p = read w p.
Proof. destruct p; reflexivity. Qed.

Lemma run_readFile p data outs w :
  read w p = Some data ->
  fs_readFile p (prints outs w) = (Return data, prints outs w).
Proof. intros Hr. unfold fs_readFile. now rewrite read_prints, Hr. Qed.

Lemma run_readFile_missing p outs w :
  read w p = None ->
  fs_readFile p (prints outs w) = (Throw (ENOENT p), prints outs w).
Proof. intros Hr. unfold fs_readFile. now rewrite read_prints, Hr. Qed.

Lemma run_access p data outs w :
  read w p = Some data ->
  fs_access p (prints outs w) = (Return tt, prints outs w).
Proof. intros Hr. unfold fs_access. now rewrite read_prints, Hr. Qed.

Lemma run_member v k w :
  v <> JNull -> member (Some v) k w = (Return (field v k), w).
Proof. intros Hv. now rewrite (member_field v k Hv). Qed.

Lemma run_parse `{JSONCodec} text v w :
  JSON_parse text = Some v -> JSON_parse_text text w = (Return v, w).
Proof. intros Hp. unfold JSON_parse_text. now rewrite Hp. Qed.

Lemma run_parse_error `{JSONCodec} text w :
  JSON_parse text = None -> JSON_parse_text text w = (Throw SyntaxError, w).
Proof. intros Hp. unfold JSON_parse_text. now rewrite Hp. Qed.

Lemma run_path_join name w :
  path_join_objects (Some (JStr name)) w = (Return (objectPath name), w).
Proof. reflexivity. Qed.

Create HintDb run discriminated.

#[export] Hint Resolve run_ret run_console_log run_console_error
  run_console_log_error run_stdout_write run_readFile run_readFile_missing
  run_access run_member run_parse run_parse_error run_path_join
  run_try_Return : run.

(** One statement of a program that returns: run it, go on with the rest. *)
Ltac step := eapply run_bind; [ solve [ eauto with run nocore ] | cbn beta iota ].

(** A program that starts in [w] starts in [prints [] w]. *)
Ltac start w := rewrite <- (prints_nil w) at 1.

(** ** Concrete repositories

    The scenarios of the specification, run with the reference codec and
    the toy digest where a digest is computed. *)

Definition run {A} (m : M A) (w : World) : World := snd (m w).

(** The user changes a file of the working tree. *)
Definition edit (file data : string) (w : World) : World :=
  mkWorld (<[file := data]> (worktree w)) (objects w) (HEAD w) (index w)
    (journal w) (console w).

(** An object of the store gets lost. *)
Definition purge (name : string) (w : World) : World :=
  mkWorld (worktree w) (delete name (objects w)) (HEAD w) (index w)
    (journal w) (console w).

(** The user deletes the HEAD file. *)
Definition remove_HEAD (w : World) : World :=
  mkWorld (worktree w) (objects w) None (index w) (journal w) (console w).

(** An empty directory with two files. *)
Definition work0 : World :=
  mkWorld (<["a.txt" := "hello"]> (<["b.txt" := "world"]> ∅)) ∅ None None [] [].

(** A repository with two commits, written out by hand: the second commit
    changes [a.txt] and stages [b.txt] again. *)
Definition commit1 : JSON :=
  JObj [("timeStamp", JStr "t1"); ("message", JStr "first");
        ("files", JArr [entry "a.txt" "b1"; entry "b.txt" "b3"]);
        ("parent", JNull)].

Definition commit2 : JSON :=
  JObj [("timeStamp", JStr "t2"); ("message", JStr "second");
        ("files", JArr [entry "a.txt" "b2"; entry "b.txt" "b3"]);
        ("parent", JStr "c1")].

Definition store2 : gmap string string :=
  <["c2" := RefJSON.stringify_2 commit2]>
    (<["c1" := RefJSON.stringify_2 commit1]>
       (<["b3" := "world"]> (<["b2" := "hello world"]> (<["b1" := "hello"]> ∅)))).

Definition repo2 : World :=
  mkWorld ∅ store2 (Some "c2") (Some "[]") [] [].

(** The first commit of [repo2] is lost. *)
Definition repo2_purged : World := purge "c1" repo2.

(** C8 on the repository of two commits: [log] prints the second commit,
    then the first one, and returns. *)
Lemma C8_history_walk_witness :
  Part000.log 2 repo2
  = (Return tt,
     prints (flat_map log_entry_000 [("c2", commit2); ("c1", commit1)]) repo2)
  /\ GystJs.log 2 repo2
     = (Return tt,
        prints (flat_map log_entry_js [("c2", commit2); ("c1", commit1)]) repo2).
Proof.
  apply (C8_history_walk_terminates repo2 "c2"
           [("c2", commit2); ("c1", commit1)] (Some JNull) 2).
  - reflexivity.
  - reflexivity.
  - discriminate.
  - vm_compute. repeat split; discriminate.
  - reflexivity.
  - simpl. lia.
Defined.

(** C5 as stated fails: with the first commit lost, [log] prints the second
    commit and then ends in the error of the read, which propagates. *)
Lemma C5_missing_parent_counterexample :
  Part000.log 5 repo2_purged
  = (Throw (ENOENT (objectPath "c1")),
     prints (log_entry_000 ("c2", commit2)) repo2_purged).
Proof. vm_compute. reflexivity. Qed.

(** C5, amended, on the same repository. *)
Lemma C5_missing_object_witness :
  Part000.log 5 repo2_purged
  = (Throw (ENOENT (objectPath "c1")),
     prints (flat_map log_entry_000 [("c2", commit2)]) repo2_purged)
  /\ GystJs.log 5 repo2_purged
     = (Throw (ENOENT (objectPath "c1")),
        prints (flat_map log_entry_js [("c2", commit2)]) repo2_purged).
Proof.
  apply (C5_missing_object_propagates repo2_purged "c2" [("c2", commit2)] "c1" 5).
  - reflexivity.
  - reflexivity.
  - vm_compute. repeat split; discriminate.
  - discriminate.
  - reflexivity.
  - simpl. lia.
Defined.

(** ** Staging *)

Lemma filterM_pure (keep : JSON -> M bool) (f : JSON -> bool) (l : list JSON) :
  Forall (fun x => keep x = ret (f x)) l ->
  filterM keep l = ret (List.filter f l).
Proof.
  induction 1 as [ | x l Hx Hl IH ]; simpl.
  - reflexivity.
  - rewrite Hx, IH. unfold bind, ret. destruct (f x); reflexivity.
Qed.

Lemma Forall_List_filter {A} (P : A -> Prop) (f : A -> bool) (l : list A) :
  Forall P l -> Forall P (List.filter f l).
Proof.
  induction 1 as [ | x l Hx Hl IH ]; simpl; [ constructor | ].
  destruct (f x); [ constructor | ]; assumption.
Qed.

Section Staging.
Context `{JSONCodec}.

Lemma staged_store_index w v :
  staged (store indexPath (JSON_stringify_2 v) w) = Some v.
Proof. unfold staged. simpl. apply JSON_parse_stringify_2. Qed.

(** What [updateStagingArea] of the second file reads. *)
Lemma load_index_run w :
  try_catch (text <- fs_readFile indexPath; JSON_parse_text text)
    (fun _ => ret (JArr [])) w
  = (Return (load_index w), w).
Proof.
  unfold load_index, staged, try_catch, bind, fs_readFile, JSON_parse_text. cbn [read].
  destruct (index w) as [ text | ]; [ | reflexivity ].
  destruct (JSON_parse text); reflexivity.
Qed.

(** [updateStagingArea] of the second file, on an index whose entries are
    not [null]: the entries of the path go, the new entry comes last. *)
Lemma updateStagingArea_000_run w p h l :
  load_index w = JArr l -> Forall (fun e => e <> JNull) l ->
  Part000.updateStagingArea p h w
  = (Return tt,
     store indexPath
       (JSON_stringify_2 (JArr (List.filter (other_path p) l ++ [entry p h]))) w).
Proof.
  intros Hload Hl. unfold Part000.updateStagingArea.
  unfold bind at 1. rewrite load_index_run, Hload.
  cbn [Array_filter].
  rewrite (filterM_pure _ (other_path p)).
  - reflexivity.
  - eapply Forall_impl; [ exact Hl | ]. intros e He. cbn beta.
    rewrite (member_field e "path" He). reflexivity.
Qed.

Lemma other_path_entry p h : other_path p (entry p h) = false.
Proof. unfold other_path. simpl. now rewrite String.eqb_refl. Qed.

Lemma filter_other_path_twice p l :
  List.filter (other_path p) (List.filter (other_path p) l) = List.filter (other_path p) l.
Proof.
  induction l as [ | e l IH ]; simpl; [ reflexivity | ].
  destruct (other_path p e) eqn:He; simpl; [ rewrite He | ]; now rewrite IH.
Qed.

Lemma entries_for_other_path p l :
  entries_for p (List.filter (other_path p) l) = [].
Proof.
  induction l as [ | e l IH ]; simpl; [ reflexivity | ].
  destruct (other_path p e) eqn:He; simpl; [ | exact IH ].
  unfold other_path in He. apply negb_true_iff in He.
  unfold entries_for in *. simpl. now rewrite He.
Qed.

(** The second file keeps one entry per path: after staging a path twice
    the index parses to a list with one entry for the path, the one with
    the second hash. *)
Lemma staging_dedupe_000 w p h1 h2 l :
  load_index w = JArr l -> Forall (fun e => e <> JNull) l ->
  exists w2 l2,
    (Part000.updateStagingArea p h1 ;; Part000.updateStagingArea p h2) w = (Return tt, w2)
    /\ staged w2 = Some (JArr l2)
    /\ entries_for p l2 = [entry p h2].
Proof.
  intros Hload Hl.
  set (l1 := List.filter (other_path p) l ++ [entry p h1]).
  set (w1 := store indexPath (JSON_stringify_2 (JArr l1)) w).
  assert (Hload1 : load_index w1 = JArr l1).
  { unfold load_index, w1. now rewrite staged_store_index. }
  assert (Hl1 : Forall (fun e => e <> JNull) l1).
  { apply Forall_app. split.
    - now apply Forall_List_filter.
    - repeat constructor. discriminate. }
  exists (store indexPath
            (JSON_stringify_2 (JArr (List.filter (other_path p) l1 ++ [entry p h2]))) w1),
         (List.filter (other_path p) l1 ++ [entry p h2]).
  split; [ | split ].
  - unfold bind. rewrite (updateStagingArea_000_run w p h1 l Hload Hl).
    fold l1. fold w1. apply (updateStagingArea_000_run w1 p h2 l1 Hload1 Hl1).
  - apply staged_store_index.
  - unfold entries_for. rewrite List.filter_app.
    fold (entries_for p (List.filter (other_path p) l1)).
    rewrite entries_for_other_path. simpl. now rewrite String.eqb_refl.
Qed.
End Staging.

(** C1 fails in [src/Gyst.js]: staging [a.txt] twice in a fresh repository
    leaves two entries for [a.txt], the first hash before the second. *)
Lemma C1_staging_twice_GystJs :
  exists w2,
    (GystJs.updateStagingArea "a.txt" "h1" ;; GystJs.updateStagingArea "a.txt" "h2") fresh
    = (Return tt, w2)
    /\ staged w2 = Some (JArr [entry "a.txt" "h1"; entry "a.txt" "h2"])
    /\ entries_for "a.txt" [entry "a.txt" "h1"; entry "a.txt" "h2"]
       = [entry "a.txt" "h1"; entry "a.txt" "h2"].
Proof. eexists. split; [ | split ]; vm_compute; reflexivity. Qed.

(** The same run with the second file leaves the one entry. *)
Lemma staging_twice_000 :
  exists w2,
    (Part000.updateStagingArea "a.txt" "h1" ;; Part000.updateStagingArea "a.txt" "h2") fresh
    = (Return tt, w2)
    /\ staged w2 = Some (JArr [entry "a.txt" "h2"]).
Proof. eexists. split; vm_compute; reflexivity. Qed.

(** ** The HEAD pointer and the emptiness guard of [commit] *)

Section Commit.
Context `{JSONCodec}.
Variable sha1_hex : string -> string.

(** In an initialised repository [init] of the second file does nothing. *)
Lemma init_000_initialised w h :
  HEAD w = Some h -> Part000.init w = (Return tt, w).
Proof.
  intros Hhead. unfold Part000.init, fs_mkdir_objects, bind, ret, try_catch.
  unfold fs_writeFile_wx at 1. cbn [read]. now rewrite Hhead.
Qed.

(** The second file maps an absent and an empty HEAD to [null]. *)
Lemma getCurrentHead_000_null w :
  HEAD w = None \/ HEAD w = Some "" ->
  Part000.getCurrentHead w = (Return JNull, w).
Proof.
  intros [ Hhead | Hhead ];
    unfold Part000.getCurrentHead, try_catch, bind, fs_readFile, ret; cbn [read];
    rewrite Hhead; reflexivity.
Qed.

(** [src/Gyst.js] maps only the absent HEAD to [null]. *)
Lemma getCurrentHead_js_absent w :
  HEAD w = None -> GystJs.getCurrentHead w = (Return JNull, w).
Proof.
  intros Hhead.
  unfold GystJs.getCurrentHead, try_catch, bind, fs_readFile, ret; cbn [read].
  now rewrite Hhead.
Qed.
End Commit.

(** The guard of the second file.  In a repository whose HEAD file exists
    and whose index is the empty list (or is absent or unreadable),
    [commit] prints the diagnostic, exits with status 1 and writes nothing:
    the world after it differs from the world before it only in the
    console. *)
Theorem commit_emptiness_guard_000 `{JSONCodec} (sha1_hex : string -> string)
    (w : World) (h now message : string) :
  HEAD w = Some h ->
  load_index w = JArr [] ->
  Part000.commit sha1_hex now message w
  = (Exit 1, prints [Err "No changes added to commit."] w).
Proof.
  intros Hhead Hload. unfold Part000.commit.
  unfold bind at 1. rewrite (init_000_initialised w h Hhead).
  unfold bind at 1. rewrite load_index_run, Hload.
  reflexivity.
Qed.

(** The guard on a fresh repository. *)
Lemma commit_emptiness_guard_000_witness :
  Part000.commit toy_digest "t" "oops" fresh
  = (Exit 1, prints [Err "No changes added to commit."] fresh).
Proof.
  apply (commit_emptiness_guard_000 toy_digest fresh "" "t" "oops"); reflexivity.
Defined.

(** With the HEAD file removed by hand the [init] that [commit] of the
    second file runs first creates an empty HEAD file, before the guard
    stops the commit. *)
Lemma commit_000_creates_HEAD :
  staged (remove_HEAD fresh) = Some (JArr [])
  /\ HEAD (remove_HEAD fresh) = None
  /\ Part000.commit toy_digest "t" "oops" (remove_HEAD fresh)
     = (Exit 1,
        prints [Err "No changes added to commit."]
          (store headPath "" (remove_HEAD fresh))).
Proof. repeat split; vm_compute; reflexivity. Qed.

(** The commit that [src/Gyst.js] stores on the fresh repository. *)
Definition empty_commit : JSON :=
  JObj [("timeStamp", JStr "t"); ("message", JStr "oops");
        ("files", JArr []); ("parent", JStr "")].

(** C2 fails in [src/Gyst.js]: [commit] has no guard.  On a fresh
    repository, where the index is the empty list, it returns after
    writing a commit without files into the store, its digest into HEAD
    and the index again, and reports success. *)
Lemma C2_commit_empty_index_GystJs :
  staged fresh = Some (JArr [])
  /\ HEAD fresh = Some ""
  /\ objects fresh = ∅
  /\ exists w',
       GystJs.commit toy_digest "t" "oops" fresh = (Return tt, w')
       /\ journal w'
          = [ (objectPath (toy_digest (RefJSON.stringify empty_commit)),
               RefJSON.stringify empty_commit);
              (headPath, toy_digest (RefJSON.stringify empty_commit));
              (indexPath, "[]") ]
       /\ HEAD w' = Some (toy_digest (RefJSON.stringify empty_commit))
       /\ objects w' !! toy_digest (RefJSON.stringify empty_commit)
          = Some (RefJSON.stringify empty_commit)
       /\ console w'
          = [ Log ("Commit successfully created: "
                   +:+ toy_digest (RefJSON.stringify empty_commit)) ].
Proof.
  split; [ | split; [ | split ] ]; [ reflexivity .. | ].
  eexists. repeat split; vm_compute; reflexivity.
Qed.

(** The record of the commit that HEAD names. *)
Definition HEAD_commit `{JSONCodec} (w : World) : option JSON :=
  match HEAD w with
  | Some h =>
      match objects w !! h with
      | Some raw => JSON_parse raw
      | None => None
      end
  | None => None
  end.

(** C3 fails in [src/Gyst.js]: on the empty HEAD file of a fresh repository
    [getCurrentHead] returns the empty string, and the first commit is
    stored with the empty string as its parent. *)
Lemma C3_empty_HEAD_GystJs :
  GystJs.getCurrentHead fresh = (Return (JStr ""), fresh)
  /\ exists c,
       HEAD_commit (run (GystJs.add toy_digest "a.txt" ;;
                         GystJs.commit toy_digest "t1" "first")
                      (edit "a.txt" "hello" fresh)) = Some c
       /\ field c "parent" = Some (JStr "").
Proof.
  split; [ reflexivity | ]. eexists. split; vm_compute; reflexivity.
Qed.

(** The second file stores the first commit with the parent [null], whether
    the HEAD file is empty or absent. *)
Lemma first_commit_parent_null_000 `{JSONCodec} (sha1_hex : string -> string)
    (w : World) (now message : string) (e : JSON) (l : list JSON) :
  HEAD w = None \/ HEAD w = Some "" ->
  staged w = Some (JArr (e :: l)) ->
  exists w' c,
    Part000.commit sha1_hex now message w = (Return tt, w')
    /\ HEAD_commit w' = Some c
    /\ field c "parent" = Some JNull.
Proof.
  intros Hhead Hidx.
  assert (Hindex : exists text, index w = Some text /\ JSON_parse text = Some (JArr (e :: l))).
  { unfold staged in Hidx. destruct (index w) as [ text | ]; [ eauto | discriminate ]. }
  destruct Hindex as (text & Hindex & Hparse).
  set (commitData := JObj [("timeStamp", JStr now); ("message", JStr message);
                           ("files", JArr (e :: l)); ("parent", JNull)]).
  (* the world the rest of [commit] runs in: [init] may have created HEAD *)
  assert (Hinit : exists w0,
             Part000.init w = (Return tt, w0) /\ HEAD w0 = Some ""
             /\ index w0 = Some text).
  { destruct Hhead as [ Hhead | Hhead ].
    - exists (store headPath "" w). split; [ | split; [ reflexivity | exact Hindex ] ].
      unfold Part000.init, fs_mkdir_objects, bind, ret, try_catch.
      unfold fs_writeFile_wx at 1. cbn [read]. rewrite Hhead.
      unfold fs_writeFile_wx. cbn [read store index]. now rewrite Hindex.
    - exists w. split; [ | split; [ exact Hhead | exact Hindex ] ].
      now apply (init_000_initialised w ""). }
  destruct Hinit as (w0 & Hinit & Hhead0 & Hindex0).
  assert (Hload0 : load_index w0 = JArr (e :: l)).
  { unfold load_index, staged. now rewrite Hindex0, Hparse. }
  eexists. exists commitData. split; [ | split ].
  - unfold Part000.commit.
    unfold bind at 1. rewrite Hinit.
    unfold bind at 1. rewrite load_index_run, Hload0.
    unfold bind at 1. cbn [length_is_zero ret].
    unfold bind at 1. cbn [ret].
    unfold bind at 1. rewrite (getCurrentHead_000_null w0) by (right; exact Hhead0).
    cbn [truthy]. fold commitData.
    unfold bind, fs_writeFile, console_log. reflexivity.
  - unfold HEAD_commit. cbn [HEAD print store objects].
    rewrite lookup_insert_eq. apply JSON_parse_stringify_2.
  - reflexivity.
Qed.

(** ** Showing a commit *)

Lemma forEach_prints {A} (body : A -> M unit) (out : A -> list Out) (w : World)
    (l : list A) :
  Forall (fun x => forall outs,
            body x (prints outs w) = (Return tt, prints (outs ++ out x) w)) l ->
  forall outs,
    forEach body l (prints outs w) = (Return tt, prints (outs ++ flat_map out l) w).
Proof.
  induction 1 as [ | x l Hx Hl IH ]; intros outs; simpl.
  - now rewrite app_nil_r.
  - unfold bind. rewrite Hx, IH. now rewrite <- app_assoc.
Qed.

Lemma field_not_null v k x : field v k = Some x -> v <> JNull.
Proof. intros Hf ->. discriminate. Qed.

Lemma read_blob_000_hash objs e :
  read_blob_000 objs e <> None ->
  exists name, field e "hash" = Some (JStr name)
               /\ text_of (read_blob_000 objs e)
                  = match objs !! name with Some c => c | None => "" end.
Proof.
  unfold read_blob_000. destruct (field e "hash") as [ [ | | name | | ] | ]; try congruence.
  intros _. exists name. split; reflexivity.
Qed.

Lemma read_blob_js_hash objs e :
  read_blob_js objs e <> None ->
  exists name, field e "hash" = Some (JStr name)
               /\ objs !! name = Some (text_of (read_blob_js objs e)).
Proof.
  unfold read_blob_js. destruct (field e "hash") as [ [ | | name | | ] | ]; try congruence.
  destruct (objs !! name) as [ content | ] eqn:Hname; [ | congruence ].
  intros _. exists name. split; [ reflexivity | exact Hname ].
Qed.

Lemma read_blob_js_000 objs e :
  read_blob_js objs e <> None ->
  read_blob_000 objs e = read_blob_js objs e.
Proof.
  unfold read_blob_js, read_blob_000.
  destruct (field e "hash") as [ [ | | name | | ] | ]; try congruence.
  destruct (objs !! name); congruence.
Qed.

Section Show.
Context `{JSONCodec}.
Variable diffLines : string -> string -> list Change.

Lemma run_getFileContent_000 w e name outs :
  field e "hash" = Some (JStr name) ->
  Part000.getFileContent (field e "hash") (prints outs w)
  = (Return (text_of (read_blob_000 (objects w) e)), prints outs w).
Proof.
  intros Hname. unfold read_blob_000. rewrite Hname.
  unfold Part000.getFileContent. step.
  destruct (objects w !! name) as [ content | ] eqn:Hstored.
  - eapply run_try_Return. eauto with run.
  - eapply run_try_Throw; [ eauto with run | reflexivity ].
Qed.

Lemma run_getFileContent_js w e name content outs :
  field e "hash" = Some (JStr name) -> objects w !! name = Some content ->
  GystJs.getFileContent (field e "hash") (prints outs w)
  = (Return content, prints outs w).
Proof.
  intros Hname Hstored. rewrite Hname. unfold GystJs.getFileContent. step.
  eauto with run.
Qed.

Lemma run_getCommitRaw_missing w p outs :
  objects w !! p = None ->
  Part000.getCommitRaw (Some (JStr p)) (prints outs w) = (Return None, prints outs w).
Proof.
  intros Hnone. unfold Part000.getCommitRaw. step.
  eapply run_try_Throw; [ | reflexivity ].
  eapply run_bind_Throw. eauto with run.
Qed.

Lemma run_getCommitRaw_stored w p raw outs :
  objects w !! p = Some raw ->
  Part000.getCommitRaw (Some (JStr p)) (prints outs w)
  = (Return (Some raw), prints outs w).
Proof.
  intros Hraw. unfold Part000.getCommitRaw. step.
  eapply run_try_Return. step. reflexivity.
Qed.

Lemma run_getCommitData_missing w p outs :
  objects w !! p = None ->
  GystJs.getCommitData (Some (JStr p)) (prints outs w)
  = (Return None,
     prints (outs ++ [LogError ("Failed to read the commit data for " +:+ p +:+ ":")
                        (ENOENT (objectPath p))]) w).
Proof.
  intros Hnone. unfold GystJs.getCommitData. step.
  eapply run_try_Throw.
  - eapply run_bind_Throw. eauto with run.
  - cbn beta. step. reflexivity.
Qed.

Lemma run_getCommitData_stored w p raw outs :
  objects w !! p = Some raw ->
  GystJs.getCommitData (Some (JStr p)) (prints outs w)
  = (Return (Some raw), prints outs w).
Proof.
  intros Hraw. unfold GystJs.getCommitData. step.
  eapply run_try_Return. step. reflexivity.
Qed.

#[local] Hint Resolve run_getFileContent_000 run_getFileContent_js
  run_getCommitRaw_missing run_getCommitRaw_stored
  run_getCommitData_missing run_getCommitData_stored : run.

Lemma showCommitDiff_file_000_first w c e outs :
  truthy (field c "parent") = false -> c <> JNull ->
  read_blob_000 (objects w) e <> None ->
  Part000.showCommitDiff_file diffLines c e (prints outs w)
  = (Return tt, prints (outs ++ file_report_000 (objects w) note_first_000 e) w).
Proof.
  intros Hparent Hc Hblob.
  destruct (read_blob_000_hash _ _ Hblob) as (name & Hname & _).
  assert (He : e <> JNull) by (eapply field_not_null; eauto).
  unfold Part000.showCommitDiff_file, file_report_000.
  do 6 step. rewrite Hparent.
  rewrite run_console_log, <- !app_assoc. reflexivity.
Qed.

Lemma showCommitDiff_file_000_missing w c e p outs :
  field c "parent" = Some (JStr p) -> p <> "" -> objects w !! p = None ->
  read_blob_000 (objects w) e <> None ->
  Part000.showCommitDiff_file diffLines c e (prints outs w)
  = (Return tt, prints (outs ++ file_report_000 (objects w) note_missing_000 e) w).
Proof.
  intros Hparent Hp Hnone Hblob.
  destruct (read_blob_000_hash _ _ Hblob) as (name & Hname & _).
  assert (He : e <> JNull) by (eapply field_not_null; eauto).
  assert (Hc : c <> JNull) by (eapply field_not_null; eauto).
  unfold Part000.showCommitDiff_file, file_report_000.
  do 6 step. rewrite Hparent, (truthy_digest p Hp).
  step. rewrite run_console_log, <- !app_assoc. reflexivity.
Qed.

Lemma showCommitDiff_file_js_first w c e outs :
  truthy (field c "parent") = false -> c <> JNull ->
  read_blob_js (objects w) e <> None ->
  GystJs.showCommitDiff_file diffLines c e (prints outs w)
  = (Return tt, prints (outs ++ file_report_js (objects w) note_first_js e) w).
Proof.
  intros Hparent Hc Hblob.
  destruct (read_blob_js_hash _ _ Hblob) as (name & Hname & Hstored).
  assert (He : e <> JNull) by (eapply field_not_null; eauto).
  unfold GystJs.showCommitDiff_file, file_report_js.
  do 6 step. rewrite Hparent.
  rewrite run_console_log, <- !app_assoc. reflexivity.
Qed.

(** [showCommitDiff] of the second file on a stored commit: the heading,
    then the loop over the files. *)
Lemma showCommitDiff_000_stored w hd h raw c files :
  HEAD w = Some hd -> objects w !! h = Some raw -> JSON_parse raw = Some c ->
  field c "files" = Some (JArr files) ->
  Part000.showCommitDiff diffLines h w
  = forEach (Part000.showCommitDiff_file diffLines c) files
      (prints [Log ("Changes in commit " +:+ h +:+ ":" +:+ LF)] w).
Proof.
  intros Hhead Hraw Hparse Hfiles.
  assert (Hc : c <> JNull) by (eapply field_not_null; eauto).
  assert (Htext : String.eqb raw "" = false).
  { destruct (String.eqb_spec raw ""); [ | reflexivity ].
    subst raw. rewrite JSON_parse_empty in Hparse. discriminate. }
  unfold Part000.showCommitDiff.
  unfold bind at 1, try_catch at 1, fs_access at 1. cbn [read]. rewrite Hhead.
  unfold bind at 1, Part000.getCommitRaw at 1.
  unfold path_join_objects, bind at 1, ret, try_catch, bind at 1, fs_readFile. cbn [read].
  rewrite Hraw, Htext.
  unfold bind at 1, JSON_parse_text at 1. rewrite Hparse. unfold ret.
  unfold bind at 1, console_log at 1. rewrite print_prints.
  unfold bind at 1. rewrite (member_field c "files" Hc). unfold ret. rewrite Hfiles.
  reflexivity.
Qed.

Lemma showCommitDiff_js_stored w h raw c files :
  objects w !! h = Some raw -> JSON_parse raw = Some c ->
  field c "files" = Some (JArr files) ->
  GystJs.showCommitDiff diffLines h w
  = forEach (GystJs.showCommitDiff_file diffLines c) files
      (prints [Log ("Changes in the last commit are" +:+ LF)] w).
Proof.
  intros Hraw Hparse Hfiles.
  assert (Hc : c <> JNull) by (eapply field_not_null; eauto).
  assert (Htruthy : truthy (Some c) = true).
  { destruct c; try reflexivity; discriminate. }
  unfold GystJs.showCommitDiff.
  unfold bind at 1, GystJs.getCommitData at 1.
  unfold path_join_objects, bind at 1, ret, try_catch, bind at 1, fs_readFile. cbn [read].
  rewrite Hraw.
  unfold bind at 1, GystJs.JSON_parse_nullable, JSON_parse_text at 1. rewrite Hparse.
  unfold ret. rewrite Htruthy. cbn [negb].
  unfold bind at 1, console_log at 1. rewrite print_prints.
  unfold bind at 1. rewrite (member_field c "files" Hc). unfold ret. rewrite Hfiles.
  reflexivity.
Qed.
End Show.

(** The second file reports a lost parent commit for every file and goes
    on to the next file. *)
Lemma showCommitDiff_000_missing_parent `{JSONCodec}
    (diffLines : string -> string -> list Change) (w : World)
    (hd h raw : string) (c : JSON) (files : list JSON) (p : string) :
  HEAD w = Some hd -> objects w !! h = Some raw -> JSON_parse raw = Some c ->
  field c "parent" = Some (JStr p) -> p <> "" -> objects w !! p = None ->
  field c "files" = Some (JArr files) ->
  Forall (fun e => read_blob_000 (objects w) e <> None) files ->
  Part000.showCommitDiff diffLines h w
  = (Return tt,
     prints (Log ("Changes in commit " +:+ h +:+ ":" +:+ LF)
             :: flat_map (file_report_000 (objects w) note_missing_000) files) w).
Proof.
  intros Hhead Hraw Hparse Hparent Hp Hnone Hfiles Hblobs.
  rewrite (showCommitDiff_000_stored diffLines w hd h raw c files) by assumption.
  apply (forEach_prints _ (file_report_000 (objects w) note_missing_000)).
  eapply Forall_impl; [ exact Hblobs | ]. intros e He outs.
  now apply showCommitDiff_file_000_missing with (p := p).
Qed.

(** C7. For a stored commit whose parent is [null], whose files are entries
    of stored blobs, [showCommitDiff] prints for every file its path, its
    content and the note of the first commit, and returns; the output is
    the same whatever [diffLines] computes, and no part of a diff is
    written.  Both files. *)
Theorem C7_first_commit_diff `{JSONCodec}
    (diffLines : string -> string -> list Change) (w : World)
    (hd h raw : string) (c : JSON) (files : list JSON) :
  HEAD w = Some hd -> objects w !! h = Some raw -> JSON_parse raw = Some c ->
  field c "parent" = Some JNull ->
  field c "files" = Some (JArr files) ->
  Forall (fun e => read_blob_js (objects w) e <> None) files ->
  Part000.showCommitDiff diffLines h w
  = (Return tt,
     prints (Log ("Changes in commit " +:+ h +:+ ":" +:+ LF)
             :: flat_map (file_report_000 (objects w) note_first_000) files) w)
  /\ GystJs.showCommitDiff diffLines h w
     = (Return tt,
        prints (Log ("Changes in the last commit are" +:+ LF)
                :: flat_map (file_report_js (objects w) note_first_js) files) w)
  /\ Forall (fun o => exists line, o = Log line)
       (flat_map (file_report_000 (objects w) note_first_000) files
        ++ flat_map (file_report_js (objects w) note_first_js) files).
Proof.
  intros Hhead Hraw Hparse Hparent Hfiles Hblobs.
  assert (Hc : c <> JNull) by (eapply field_not_null; eauto).
  assert (Hfalsy : truthy (field c "parent") = false) by now rewrite Hparent.
  split; [ | split ].
  - rewrite (showCommitDiff_000_stored diffLines w hd h raw c files) by assumption.
    apply (forEach_prints _ (file_report_000 (objects w) note_first_000)).
    eapply Forall_impl; [ exact Hblobs | ]. intros e He outs.
    apply showCommitDiff_file_000_first; try assumption.
    rewrite (read_blob_js_000 _ _ He). exact He.
  - rewrite (showCommitDiff_js_stored diffLines w h raw c files) by assumption.
    apply (forEach_prints _ (file_report_js (objects w) note_first_js)).
    eapply Forall_impl; [ exact Hblobs | ]. intros e He outs.
    now apply showCommitDiff_file_js_first.
  - apply Forall_app. split; apply Forall_flat_map, Forall_forall; intros e _;
      repeat constructor; eauto.
Qed.

(** C7 on the first commit of the repository of two commits. *)
Lemma C7_first_commit_diff_witness :
  Part000.showCommitDiff DiffRenderer.diffLines "c1" repo2
  = (Return tt,
     prints (Log ("Changes in commit " +:+ "c1" +:+ ":" +:+ LF)
             :: flat_map (file_report_000 (objects repo2) note_first_000)
                  [entry "a.txt" "b1"; entry "b.txt" "b3"]) repo2)
  /\ GystJs.showCommitDiff DiffRenderer.diffLines "c1" repo2
     = (Return tt,
        prints (Log ("Changes in the last commit are" +:+ LF)
                :: flat_map (file_report_js (objects repo2) note_first_js)
                     [entry "a.txt" "b1"; entry "b.txt" "b3"]) repo2)
  /\ Forall (fun o => exists line, o = Log line)
       (flat_map (file_report_000 (objects repo2) note_first_000)
          [entry "a.txt" "b1"; entry "b.txt" "b3"]
        ++ flat_map (file_report_js (objects repo2) note_first_js)
             [entry "a.txt" "b1"; entry "b.txt" "b3"]).
Proof.
  apply (C7_first_commit_diff DiffRenderer.diffLines repo2 "c2" "c1"
           (RefJSON.stringify_2 commit1) commit1).
  - reflexivity.
  - reflexivity.
  - vm_compute. reflexivity.
  - reflexivity.
  - reflexivity.
  - repeat constructor; vm_compute; discriminate.
Defined.

(** C4 fails in [src/Gyst.js]: with the parent commit lost, [showCommitDiff]
    prints the first file, logs the failed read of the parent and ends in a
    [TypeError]; the second file of the commit is never reached. *)
Lemma C4_missing_parent_GystJs :
  GystJs.showCommitDiff DiffRenderer.diffLines "c2" repo2_purged
  = (Throw TypeError,
     prints [ Log ("Changes in the last commit are" +:+ LF);
              Log "File: a.txt";
              Log "hello world";
              LogError "Failed to read the commit data for c1:"
                (ENOENT (objectPath "c1")) ] repo2_purged).
Proof. vm_compute. reflexivity. Qed.

(** The second file on the same repository reports both files. *)
Lemma missing_parent_000 :
  Part000.showCommitDiff DiffRenderer.diffLines "c2" repo2_purged
  = (Return tt,
     prints [ Log ("Changes in commit c2:" +:+ LF);
              Log "File: a.txt"; Log "hello world"; Log note_missing_000;
              Log "File: b.txt"; Log "world"; Log note_missing_000 ] repo2_purged).
Proof. vm_compute. reflexivity. Qed.

(** ** What a program leaves alone *)

(** [m] relates every world to the world it leaves, however it ends. *)
Definition keeps (R : World -> World -> Prop) {A} (m : M A) : Prop :=
  forall w, R w (snd (m w)).

(** The files of the repository and of the working tree are the same: only
    the console may differ. *)
Definition same_files (w w' : World) : Prop :=
  worktree w' = worktree w /\ objects w' = objects w /\ HEAD w' = HEAD w
  /\ index w' = index w /\ journal w' = journal w.

(** The object store and the working tree are the same. *)
Definition same_store (w w' : World) : Prop :=
  worktree w' = worktree w /\ objects w' = objects w.

(** A relation that every program without writes keeps. *)
Record Frame (R : World -> World -> Prop) : Prop := {
  frame_refl : forall w, R w w;
  frame_trans : forall w1 w2 w3, R w1 w2 -> R w2 w3 -> R w1 w3;
  frame_print : forall o w, R w (print o w)
}.

Section Frame.
Variable R : World -> World -> Prop.
Hypothesis F : Frame R.

#[local] Abbreviation R_refl := (frame_refl R F).
#[local] Abbreviation R_trans := (frame_trans R F).
#[local] Abbreviation R_print := (frame_print R F).

Lemma keeps_ret {A} (a : A) : keeps R (ret a).
Proof. intros w. apply R_refl. Qed.

Lemma keeps_throw {A} e : keeps R (@throw A e).
Proof. intros w. apply R_refl. Qed.

Lemma keeps_exit {A} c : keeps R (@process_exit A c).
Proof. intros w. apply R_refl. Qed.

Lemma keeps_timeout {A} : keeps R (@timeout A).
Proof. intros w. apply R_refl. Qed.

Lemma keeps_bind {A B} (m : M A) (k : A -> M B) :
  keeps R m -> (forall a, keeps R (k a)) -> keeps R (bind m k).
Proof.
  intros Hm Hk w. unfold bind. specialize (Hm w).
  destruct (m w) as [[ a | e | c | ] w1]; simpl in *; try exact Hm.
  eapply R_trans; [ exact Hm | apply Hk ].
Qed.

Lemma keeps_try {A} (m : M A) (h : Error -> M A) :
  keeps R m -> (forall e, keeps R (h e)) -> keeps R (try_catch m h).
Proof.
  intros Hm Hh w. unfold try_catch. specialize (Hm w).
  destruct (m w) as [[ a | e | c | ] w1]; simpl in *; try exact Hm.
  eapply R_trans; [ exact Hm | apply Hh ].
Qed.

Lemma keeps_readFile p : keeps R (fs_readFile p).
Proof. intros w. unfold fs_readFile. destruct (read w p); apply R_refl. Qed.

Lemma keeps_access p : keeps R (fs_access p).
Proof. intros w. unfold fs_access. destruct (read w p); apply R_refl. Qed.

Lemma keeps_mkdir : keeps R fs_mkdir_objects.
Proof. apply keeps_ret. Qed.

Lemma keeps_console_log line : keeps R (console_log line).
Proof. intros w. apply R_print. Qed.

Lemma keeps_console_error line : keeps R (console_error line).
Proof. intros w. apply R_print. Qed.

Lemma keeps_console_log_error line e : keeps R (console_log_error line e).
Proof. intros w. apply R_print. Qed.

Lemma keeps_stdout_write style text : keeps R (stdout_write style text).
Proof. intros w. apply R_print. Qed.

Lemma keeps_member v k : keeps R (member v k).
Proof. destruct v as [ [ | | | | ] | ]; first [ apply keeps_ret | apply keeps_throw ]. Qed.

Lemma keeps_path_join name : keeps R (path_join_objects name).
Proof.
  destruct name as [ [ | | | | ] | ]; first [ apply keeps_ret | apply keeps_throw ].
Qed.

Lemma keeps_parse `{JSONCodec} text : keeps R (JSON_parse_text text).
Proof.
  unfold JSON_parse_text. destruct (JSON_parse text);
    first [ apply keeps_ret | apply keeps_throw ].
Qed.

Lemma keeps_length_is_zero v : keeps R (length_is_zero v).
Proof. destruct v; first [ apply keeps_ret | apply keeps_throw ]. Qed.

Lemma keeps_filterM keep l :
  (forall x, keeps R (keep x)) -> keeps R (filterM keep l).
Proof.
  intros Hkeep. induction l as [ | x l IH ]; simpl.
  - apply keeps_ret.
  - apply keeps_bind; [ apply Hkeep | intros b ].
    apply keeps_bind; [ exact IH | intros l' ]. apply keeps_ret.
Qed.

Lemma keeps_Array_filter arr keep :
  (forall x, keeps R (keep x)) -> keeps R (Array_filter arr keep).
Proof.
  intros Hkeep. destruct arr; try apply keeps_throw. simpl.
  apply keeps_bind; [ now apply keeps_filterM | intros l; apply keeps_ret ].
Qed.

Lemma keeps_Array_push arr x : keeps R (Array_push arr x).
Proof. destruct arr; first [ apply keeps_ret | apply keeps_throw ]. Qed.

Lemma keeps_findM test l :
  (forall x, keeps R (test x)) -> keeps R (findM test l).
Proof.
  intros Htest. induction l as [ | x l IH ]; simpl.
  - apply keeps_ret.
  - apply keeps_bind; [ apply Htest | intros [ | ]; [ apply keeps_ret | exact IH ] ].
Qed.

Lemma keeps_Array_find arr test :
  (forall x, keeps R (test x)) -> keeps R (Array_find arr test).
Proof.
  intros Htest. destruct arr as [ [ | | | | ] | ]; try apply keeps_throw.
  now apply keeps_findM.
Qed.

Lemma keeps_forEach {A} (body : A -> M unit) l :
  (forall x, keeps R (body x)) -> keeps R (forEach body l).
Proof.
  intros Hbody. induction l as [ | x l IH ]; simpl.
  - apply keeps_ret.
  - apply keeps_bind; [ apply Hbody | intros _; exact IH ].
Qed.

Lemma keeps_for_of v body :
  (forall x, keeps R (body x)) -> keeps R (for_of v body).
Proof.
  intros Hbody. destruct v as [ [ | | | | ] | ]; try apply keeps_throw;
    now apply keeps_forEach.
Qed.

Lemma keeps_write_part minus part : keeps R (write_part minus part).
Proof.
  unfold write_part. destruct (added part); [ | destruct (removed part) ];
    apply keeps_stdout_write.
Qed.
End Frame.

Lemma same_files_refl w : same_files w w.
Proof. repeat split. Qed.

Lemma same_files_trans w1 w2 w3 :
  same_files w1 w2 -> same_files w2 w3 -> same_files w1 w3.
Proof. unfold same_files. intuition congruence. Qed.

Lemma same_files_print o w : same_files w (print o w).
Proof. repeat split. Qed.

Lemma same_store_refl w : same_store w w.
Proof. repeat split. Qed.

Lemma same_store_trans w1 w2 w3 :
  same_store w1 w2 -> same_store w2 w3 -> same_store w1 w3.
Proof. unfold same_store. intuition congruence. Qed.

Lemma same_store_print o w : same_store w (print o w).
Proof. repeat split. Qed.

(** Writing HEAD or the index leaves the store alone. *)
Lemma same_store_writeFile p data :
  (forall name, p <> objectPath name) -> (forall file, p <> workPath file) ->
  keeps same_store (fs_writeFile p data).
Proof. intros Hobj Hwork w. destruct p; try congruence; repeat split. Qed.

Lemma same_store_writeFile_wx p data :
  (forall name, p <> objectPath name) -> (forall file, p <> workPath file) ->
  keeps same_store (fs_writeFile_wx p data).
Proof.
  intros Hobj Hwork w. unfold fs_writeFile_wx.
  destruct (read w p); [ apply same_store_refl | ].
  destruct p; try congruence; repeat split.
Qed.

Lemma same_files_frame : Frame same_files.
Proof.
  split.
  - apply same_files_refl.
  - apply same_files_trans.
  - apply same_files_print.
Qed.

Lemma same_store_frame : Frame same_store.
Proof.
  split.
  - apply same_store_refl.
  - apply same_store_trans.
  - apply same_store_print.
Qed.

(** Proves that a program keeps a relation, statement by statement. *)
Ltac keeps_tac F :=
  repeat first
    [ progress intros
    | apply (keeps_bind _ F)
    | apply (keeps_try _ F)
    | apply (keeps_ret _ F)
    | apply (keeps_throw _ F)
    | apply (keeps_exit _ F)
    | apply (keeps_timeout _ F)
    | apply (keeps_readFile _ F)
    | apply (keeps_access _ F)
    | apply (keeps_mkdir _ F)
    | apply (keeps_console_log _ F)
    | apply (keeps_console_error _ F)
    | apply (keeps_console_log_error _ F)
    | apply (keeps_member _ F)
    | apply (keeps_path_join _ F)
    | apply (keeps_parse _ F)
    | apply (keeps_length_is_zero _ F)
    | apply (keeps_Array_filter _ F)
    | apply (keeps_Array_push _ F)
    | apply (keeps_Array_find _ F)
    | apply (keeps_forEach _ F)
    | apply (keeps_for_of _ F)
    | apply (keeps_write_part _ F)
    | apply same_store_writeFile; discriminate
    | apply same_store_writeFile_wx; discriminate
    | match goal with
      | |- keeps _ (if ?b then _ else _) => destruct b
      | |- keeps _ (match ?x with _ => _ end) => destruct x
      end ].

Ltac keeps_files := keeps_tac same_files_frame.
Ltac keeps_store := keeps_tac same_store_frame.

Section ReadOnly.
Context `{JSONCodec}.
Variable diffLines : string -> string -> list Change.

Lemma updateStagingArea_000_same_store p h :
  keeps same_store (Part000.updateStagingArea p h).
Proof. unfold Part000.updateStagingArea. keeps_store. Qed.

Lemma updateStagingArea_js_same_store p h :
  keeps same_store (GystJs.updateStagingArea p h).
Proof. unfold GystJs.updateStagingArea. keeps_store. Qed.

Lemma init_000_same_store : keeps same_store Part000.init.
Proof. unfold Part000.init. keeps_store. Qed.

Lemma init_js_same_store : keeps same_store GystJs.init.
Proof. unfold GystJs.init. keeps_store. Qed.

Lemma getCurrentHead_000_same_files : keeps same_files Part000.getCurrentHead.
Proof. unfold Part000.getCurrentHead. keeps_files. Qed.

Lemma getCurrentHead_js_same_files : keeps same_files GystJs.getCurrentHead.
Proof. unfold GystJs.getCurrentHead. keeps_files. Qed.

Lemma log_while_000_same_files fuel : forall cur, keeps same_files (Part000.log_while fuel cur).
Proof.
  induction fuel as [ | fuel IH ]; intros cur; simpl; destruct (truthy cur).
  - keeps_files.
  - keeps_files.
  - keeps_files. apply IH.
  - keeps_files.
Qed.

Lemma log_while_js_same_files fuel : forall cur, keeps same_files (GystJs.log_while fuel cur).
Proof.
  induction fuel as [ | fuel IH ]; intros cur; simpl; destruct (truthy cur).
  - keeps_files.
  - keeps_files.
  - keeps_files. apply IH.
  - keeps_files.
Qed.

Lemma log_000_same_files fuel : keeps same_files (Part000.log fuel).
Proof.
  unfold Part000.log. keeps_files;
    first [ apply getCurrentHead_000_same_files | apply log_while_000_same_files ].
Qed.

Lemma log_js_same_files fuel : keeps same_files (GystJs.log fuel).
Proof.
  unfold GystJs.log. keeps_files;
    first [ apply getCurrentHead_js_same_files | apply log_while_js_same_files ].
Qed.

Lemma showCommitDiff_000_same_files h : keeps same_files (Part000.showCommitDiff diffLines h).
Proof.
  unfold Part000.showCommitDiff, Part000.showCommitDiff_file, Part000.getCommitRaw,
    Part000.getParentFileContent, Part000.getFileContent.
  keeps_files.
Qed.

Lemma showCommitDiff_js_same_files h : keeps same_files (GystJs.showCommitDiff diffLines h).
Proof.
  unfold GystJs.showCommitDiff, GystJs.showCommitDiff_file, GystJs.getCommitData,
    GystJs.getParentFileContent, GystJs.getFileContent, GystJs.JSON_parse_nullable.
  keeps_files.
Qed.
End ReadOnly.

(** ** The object store *)

Section Store.
Context `{JSONCodec}.
Variable sha1_hex : string -> string.

(** [init] always returns. *)
Lemma init_000_returns w : fst (Part000.init w) = Return tt.
Proof.
  unfold Part000.init, fs_mkdir_objects, bind, ret, try_catch, fs_writeFile_wx, console_log.
  cbn [read]. destruct (HEAD w); [ reflexivity | ].
  cbn [read store index]. destruct (index w); reflexivity.
Qed.

Lemma keeps_run {A} (R : World -> World -> Prop) (m : M A) w :
  keeps R m -> R w (run m w).
Proof. intros Hm. apply Hm. Qed.

(** After [add] of a readable file the store holds the text read, the
    decoded content, under its digest, and is otherwise as before, however
    the staging ends. *)
Lemma add_000_objects w f c :
  worktree w !! f = Some c ->
  objects (run (Part000.add sha1_hex f) w)
  = <[Part000.hashObject sha1_hex (utf8_decode c) := utf8_decode c]> (objects w).
Proof.
  intros Hfile. unfold run, Part000.add.
  pose proof (init_000_returns w) as Hret.
  pose proof (init_000_same_store w) as (Hwork & Hobjs).
  unfold bind at 1. destruct (Part000.init w) as [r0 w0]. simpl in Hret, Hwork, Hobjs.
  subst r0.
  unfold bind at 1, try_catch at 1, fs_readFile at 1. cbn [read].
  rewrite Hwork, Hfile.
  unfold bind at 1, fs_writeFile at 1.
  set (t := utf8_decode c).
  set (w1 := store (objectPath (Part000.hashObject sha1_hex t)) t w0).
  assert (Hrest : keeps same_store
            (Part000.updateStagingArea f (Part000.hashObject sha1_hex t) ;;
             console_log ("Added file: " +:+ f))).
  { keeps_store. }
  destruct (Hrest w1) as (_ & Hobjs1). rewrite Hobjs1.
  unfold w1. cbn [store objects]. now rewrite Hobjs.
Qed.

Lemma add_js_objects w f c :
  worktree w !! f = Some c ->
  objects (run (GystJs.add sha1_hex f) w)
  = <[GystJs.hashObject sha1_hex (utf8_decode c) := utf8_decode c]> (objects w).
Proof.
  intros Hfile. unfold run, GystJs.add.
  unfold bind at 1, fs_readFile at 1. cbn [read]. rewrite Hfile.
  unfold bind at 1, console_log at 1. unfold bind at 1, fs_writeFile at 1.
  set (t := utf8_decode c).
  set (w1 := store (objectPath (GystJs.hashObject sha1_hex t)) t
               (print (Log (GystJs.hashObject sha1_hex t)) w)).
  assert (Hrest : keeps same_store
            (GystJs.updateStagingArea f (GystJs.hashObject sha1_hex t) ;;
             console_log ("Added file: " +:+ f))).
  { keeps_store. }
  destruct (Hrest w1) as (_ & Hobjs1). rewrite Hobjs1. reflexivity.
Qed.

Lemma getFileContent_000_stored w name c :
  objects w !! name = Some c ->
  Part000.getFileContent (Some (JStr name)) w = (Return c, w).
Proof.
  intros Hc. unfold Part000.getFileContent, path_join_objects, bind, ret, try_catch,
    fs_readFile. cbn [read]. now rewrite Hc.
Qed.

Lemma getFileContent_js_stored w name c :
  objects w !! name = Some c ->
  GystJs.getFileContent (Some (JStr name)) w = (Return c, w).
Proof.
  intros Hc. unfold GystJs.getFileContent, path_join_objects, bind, ret, fs_readFile.
  cbn [read]. now rewrite Hc.
Qed.
End Store.

(** C6, amended.  [add] reads the file as UTF-8 text.  For a content [c]
    that is well-formed UTF-8, [getFileContent] of the digest of [c] returns
    [c] after [add].  For every content, what [add] stores and what
    [getFileContent] then returns is the decoded content, under the digest
    of the decoded content; the decoded content is well formed, and it is
    the content itself exactly when the content is well formed.  Both
    files; the world read is the one [add] leaves, whether the staging that
    follows the write of the blob went through or not. *)
Theorem C6_store_round_trip `{JSONCodec} (sha1_hex : string -> string)
    (w : World) (f c : string) :
  worktree w !! f = Some c ->
  (well_formed c = true ->
   Part000.getFileContent (Some (JStr (Part000.hashObject sha1_hex c)))
     (run (Part000.add sha1_hex f) w)
   = (Return c, run (Part000.add sha1_hex f) w)
   /\ GystJs.getFileContent (Some (JStr (GystJs.hashObject sha1_hex c)))
        (run (GystJs.add sha1_hex f) w)
      = (Return c, run (GystJs.add sha1_hex f) w))
  /\ Part000.getFileContent
       (Some (JStr (Part000.hashObject sha1_hex (utf8_decode c))))
       (run (Part000.add sha1_hex f) w)
     = (Return (utf8_decode c), run (Part000.add sha1_hex f) w)
  /\ GystJs.getFileContent
       (Some (JStr (GystJs.hashObject sha1_hex (utf8_decode c))))
       (run (GystJs.add sha1_hex f) w)
     = (Return (utf8_decode c), run (GystJs.add sha1_hex f) w)
  /\ well_formed (utf8_decode c) = true
  /\ (utf8_decode c = c <-> well_formed c = true).
Proof.
  intros Hfile.
  assert (H000 : Part000.getFileContent
                   (Some (JStr (Part000.hashObject sha1_hex (utf8_decode c))))
                   (run (Part000.add sha1_hex f) w)
                 = (Return (utf8_decode c), run (Part000.add sha1_hex f) w)).
  { apply getFileContent_000_stored.
    rewrite (add_000_objects sha1_hex w f c Hfile). apply lookup_insert_eq. }
  assert (Hjs : GystJs.getFileContent
                  (Some (JStr (GystJs.hashObject sha1_hex (utf8_decode c))))
                  (run (GystJs.add sha1_hex f) w)
                = (Return (utf8_decode c), run (GystJs.add sha1_hex f) w)).
  { apply getFileContent_js_stored.
    rewrite (add_js_objects sha1_hex w f c Hfile). apply lookup_insert_eq. }
  split; [ | split; [ exact H000 | split; [ exact Hjs | split ] ] ].
  - intros Hwf. rewrite (utf8_decode_well_formed c Hwf) in H000, Hjs.
    split; assumption.
  - apply well_formed_utf8_decode.
  - apply utf8_decode_fixed.
Qed.

(** A working tree with a text that is not ASCII ("h", e with an acute
    accent, "!") and a file that is no UTF-8 text (the one byte FF). *)
Definition work1 : World :=
  edit "e.txt" (bytes [104; 195; 169; 33]) (edit "x.bin" (bytes [255]) fresh).

(** C6 on [e.txt]: the content is well formed and comes back as it is. *)
Lemma C6_store_round_trip_witness :
  Part000.getFileContent
    (Some (JStr (Part000.hashObject toy_digest (bytes [104; 195; 169; 33]))))
    (run (Part000.add toy_digest "e.txt") work1)
  = (Return (bytes [104; 195; 169; 33]), run (Part000.add toy_digest "e.txt") work1)
  /\ GystJs.getFileContent
       (Some (JStr (GystJs.hashObject toy_digest (bytes [104; 195; 169; 33]))))
       (run (GystJs.add toy_digest "e.txt") work1)
     = (Return (bytes [104; 195; 169; 33]), run (GystJs.add toy_digest "e.txt") work1).
Proof.
  apply (C6_store_round_trip toy_digest work1 "e.txt" (bytes [104; 195; 169; 33]));
    reflexivity.
Defined.

(** C6 as stated fails on [x.bin]: [add] stores U+FFFD under the digest of
    U+FFFD, no object is stored under the digest of the byte FF, and
    [getFileContent] of that digest finds nothing (the empty text in the
    second file, the error of the read in [src/Gyst.js]). *)
Lemma C6_ill_formed_content_counterexample :
  worktree work1 !! "x.bin" = Some (bytes [255])
  /\ well_formed (bytes [255]) = false
  /\ objects (run (Part000.add toy_digest "x.bin") work1)
     = <[toy_digest replacement := replacement]> ∅
  /\ Part000.getFileContent (Some (JStr (Part000.hashObject toy_digest (bytes [255]))))
       (run (Part000.add toy_digest "x.bin") work1)
     = (Return "", run (Part000.add toy_digest "x.bin") work1)
  /\ objects (run (GystJs.add toy_digest "x.bin") work1)
     = <[toy_digest replacement := replacement]> ∅
  /\ GystJs.getFileContent (Some (JStr (GystJs.hashObject toy_digest (bytes [255]))))
       (run (GystJs.add toy_digest "x.bin") work1)
     = (Throw (ENOENT (objectPath (toy_digest (bytes [255])))),
        run (GystJs.add toy_digest "x.bin") work1).
Proof. repeat split; vm_compute; reflexivity. Qed.

(** ** The diff renderer on equal texts *)

Module DiffRendererFacts.
Import DiffRenderer.

Lemma append_empty s : s +:+ EmptyString = s.
Proof.
  induction s as [ | c s IH ]; [ reflexivity | ].
  change (String c (s +:+ EmptyString) = String c s). now rewrite IH.
Qed.

Lemma lines_not_nil s : lines s <> [].
Proof.
  induction s as [ | c s IH ]; simpl; [ discriminate | ].
  destruct (Ascii.eqb c (ascii_of_nat 10)); [ discriminate | ].
  destruct (lines s); discriminate.
Qed.

(** The lines of a text put together are the text. *)
Lemma lines_join s : fold_right String.append EmptyString (lines s) = s.
Proof.
  induction s as [ | c s IH ]; simpl; [ reflexivity | ].
  destruct (Ascii.eqb c (ascii_of_nat 10)).
  - cbn [fold_right]. rewrite IH. reflexivity.
  - destruct (lines s) as [ | l ls ] eqn:Hl.
    + now destruct (lines_not_nil s).
    + cbn [fold_right] in IH |- *. rewrite <- IH. reflexivity.
Qed.

(** The edit script between a list of lines and itself keeps every line. *)
Lemma script_same l : script l l = map (fun x => (Equal, x)) l.
Proof.
  induction l as [ | x l IH ]; simpl; [ reflexivity | ].
  now rewrite String.eqb_refl, IH.
Qed.

Lemma runs_Equal l :
  l <> [] ->
  runs (map (fun x => (Equal, x)) l)
  = [mkRun Equal (fold_right String.append EmptyString l)].
Proof.
  induction l as [ | x l IH ]; intros Hl; [ congruence | ].
  destruct l as [ | y l ].
  - cbn [map runs fold_right]. now rewrite append_empty.
  - change (runs (map (fun x => (Equal, x)) (x :: y :: l)))
      with (match runs (map (fun x => (Equal, x)) (y :: l)) with
            | r :: rs =>
                if Kind_eqb (kind r) Equal then mkRun Equal (x +:+ text r) :: rs
                else mkRun Equal x :: r :: rs
            | [] => [mkRun Equal x]
            end).
    rewrite IH by discriminate. reflexivity.
Qed.

Lemma render_same x : render x x = [mkRun Equal x].
Proof.
  unfold render. rewrite script_same, runs_Equal by apply lines_not_nil.
  now rewrite lines_join.
Qed.
End DiffRendererFacts.

(** C9. The diff of a text against itself is a single [Equal] run that
    spans the text: no run is [Added], none is [Removed]; on it the printing
    loop of [showCommitDiff] of either file writes the text once, in grey. *)
Theorem C9_diff_identity (x : string) :
  DiffRenderer.render x x = [DiffRenderer.mkRun DiffRenderer.Equal x]
  /\ (forall minus outs w,
        forEach (write_part minus) (DiffRenderer.diffLines x x) (prints outs w)
        = (Return tt, prints (outs ++ [Stdout grey x]) w)).
Proof.
  split.
  - apply DiffRendererFacts.render_same.
  - intros minus outs w. unfold DiffRenderer.diffLines.
    rewrite DiffRendererFacts.render_same. cbn [map forEach].
    eapply run_bind; [ exact (run_stdout_write grey x outs w) | reflexivity ].
Qed.

(** ** Pointer integrity *)





Section Integrity.
Context `{JSONCodec}.
Variable sha1_hex : string -> string.



(** What [init] does, by the files that exist. *)
Lemma init_000_cases w :
  Part000.init w = (Return tt, w)
  \/ (HEAD w = None /\ index w <> None
      /\ Part000.init w = (Return tt, store headPath "" w))
  \/ (HEAD w = None /\ index w = None
      /\ Part000.init w
         = (Return tt,
            print (Log ("Initialized empty Gyst repository in " +:+ Part000.repoPath))
              (store indexPath (JSON_stringify (JArr [])) (store headPath "" w)))).
Proof.
  unfold Part000.init, fs_mkdir_objects, bind, ret, try_catch, fs_writeFile_wx, console_log.
  cbn [read]. destruct (HEAD w) eqn:Hhead; [ now left | right ].
  cbn [read store index]. destruct (index w) eqn:Hindex.
  - left. repeat split. discriminate.
  - right. repeat split.
Qed.

















End Integrity.




(** * Further properties of the programs *)

(** ** [init] *)

(** [init] is idempotent and keeps what exists: a second [init] changes
    nothing, the content of an existing HEAD or index file is never
    overwritten, and the store and the working tree are untouched; in an
    empty directory it creates the empty HEAD and the index of the empty
    list.  Both files. *)
Theorem init_idempotent_keeps_existing `{JSONCodec} (w : World) :
  Part000.init (run Part000.init w) = (Return tt, run Part000.init w)
  /\ GystJs.init (run GystJs.init w) = (Return tt, run GystJs.init w)
  /\ run GystJs.init w = run Part000.init w
  /\ (forall h, HEAD w = Some h -> run Part000.init w = w)
  /\ (forall t, index w = Some t -> index (run Part000.init w) = Some t)
  /\ (HEAD w = None -> index w = None ->
      HEAD (run Part000.init w) = Some ""
      /\ staged (run Part000.init w) = Some (JArr []))
  /\ same_store w (run Part000.init w).
Proof.
  assert (Hagain : Part000.init (run Part000.init w) = (Return tt, run Part000.init w)).
  { unfold run.
    destruct (init_000_cases w) as [ Hc | [ (Hh & Hi & Hc) | (Hh & Hi & Hc) ] ];
      rewrite Hc; cbn [snd].
    - exact Hc.
    - now apply (init_000_initialised _ "").
    - now apply (init_000_initialised _ ""). }
  split; [ exact Hagain | ]. split; [ exact Hagain | ]. split; [ reflexivity | ].
  split; [ | split; [ | split ] ].
  - intros h Hh. unfold run. now rewrite (init_000_initialised w h Hh).
  - intros t Ht. unfold run.
    destruct (init_000_cases w) as [ Hc | [ (Hh & Hi & Hc) | (Hh & Hi & Hc) ] ];
      rewrite Hc; cbn [snd]; [ exact Ht | exact Ht | congruence ].
  - intros Hh Hi. unfold run.
    destruct (init_000_cases w) as [ Hc | [ (_ & Hi' & _) | (_ & _ & Hc) ] ].
    + unfold Part000.init, fs_mkdir_objects, bind, ret, try_catch, fs_writeFile_wx in Hc.
      cbn [read] in Hc. rewrite Hh in Hc. cbn [read store index] in Hc.
      rewrite Hi in Hc. unfold console_log in Hc.
      apply (f_equal (fun r => HEAD (snd r))) in Hc. cbn in Hc. congruence.
    + congruence.
    + rewrite Hc. cbn [snd]. split; [ reflexivity | ].
      unfold staged. cbn [print store index]. apply JSON_parse_stringify.
  - apply init_000_same_store.
Qed.

(** ** Staging with the second file *)

Section StagingMore.
Context `{JSONCodec}.

Lemma entries_for_filter_other p q l :
  p <> q ->
  entries_for q (List.filter (other_path p) l) = entries_for q l.
Proof.
  intros Hpq. induction l as [ | e l IH ]; [ reflexivity | ].
  cbn [List.filter]. destruct (other_path p e) eqn:He.
  - unfold entries_for in *. cbn [List.filter]. now rewrite IH.
  - rewrite IH. unfold entries_for. cbn [List.filter].
    unfold other_path in He. apply negb_false_iff in He.
    destruct (field e "path") as [ [ | | s | | ] | ]; try discriminate.
    cbn [strict_eq] in He |- *. apply String.eqb_eq in He. subst s.
    destruct (String.eqb_spec p q); [ congruence | reflexivity ].
Qed.

Lemma entries_for_entry_other p q h : p <> q -> entries_for q [entry p h] = [].
Proof.
  intros Hpq. unfold entries_for. cbn.
  destruct (String.eqb_spec p q); [ congruence | reflexivity ].
Qed.
End StagingMore.

(** Staging a path with the second file leaves the entries of every other
    path as they are, in their order. *)
Theorem staging_keeps_other_paths `{JSONCodec} (w : World) (p h q : string)
    (l : list JSON) :
  load_index w = JArr l -> Forall (fun e => e <> JNull) l -> p <> q ->
  exists l',
    staged (run (Part000.updateStagingArea p h) w) = Some (JArr l')
    /\ entries_for q l' = entries_for q l.
Proof.
  intros Hload Hl Hpq. unfold run.
  rewrite (updateStagingArea_000_run w p h l Hload Hl). cbn [snd].
  eexists. split; [ apply staged_store_index | ].
  unfold entries_for. rewrite List.filter_app.
  fold (entries_for q (List.filter (other_path p) l)).
  fold (entries_for q [entry p h]).
  rewrite (entries_for_filter_other p q l Hpq), (entries_for_entry_other p q h Hpq).
  apply app_nil_r.
Qed.

(** A repository with [a.txt] and [b.txt] staged. *)
Definition staged_ab : World :=
  run (Part000.updateStagingArea "a.txt" "h1" ;; Part000.updateStagingArea "b.txt" "h3")
    fresh.

Lemma staging_keeps_other_paths_witness :
  exists l',
    staged (run (Part000.updateStagingArea "a.txt" "h2") staged_ab) = Some (JArr l')
    /\ entries_for "b.txt" l' = entries_for "b.txt" [entry "a.txt" "h1"; entry "b.txt" "h3"].
Proof.
  apply (staging_keeps_other_paths staged_ab "a.txt" "h2" "b.txt"
           [entry "a.txt" "h1"; entry "b.txt" "h3"]).
  - vm_compute. reflexivity.
  - repeat constructor; discriminate.
  - discriminate.
Defined.

(** Staging the same path and hash again with the second file writes the
    same index once more: the index is as after the first staging. *)
Theorem staging_idempotent `{JSONCodec} (w : World) (p h : string) (l : list JSON) :
  load_index w = JArr l -> Forall (fun e => e <> JNull) l ->
  index (run (Part000.updateStagingArea p h ;; Part000.updateStagingArea p h) w)
  = index (run (Part000.updateStagingArea p h) w).
Proof.
  intros Hload Hl.
  set (l1 := List.filter (other_path p) l ++ [entry p h]).
  set (w1 := store indexPath (JSON_stringify_2 (JArr l1)) w).
  assert (Hload1 : load_index w1 = JArr l1).
  { unfold load_index, w1. now rewrite staged_store_index. }
  assert (Hl1 : Forall (fun e => e <> JNull) l1).
  { apply Forall_app. split; [ now apply Forall_List_filter | ].
    repeat constructor. discriminate. }
  unfold run, bind. rewrite (updateStagingArea_000_run w p h l Hload Hl).
  fold l1. fold w1. rewrite (updateStagingArea_000_run w1 p h l1 Hload1 Hl1).
  cbn [snd store index]. f_equal. f_equal. f_equal.
  unfold l1. rewrite List.filter_app, filter_other_path_twice.
  cbn [List.filter]. now rewrite other_path_entry, app_nil_r.
Qed.

Lemma staging_idempotent_witness :
  index (run (Part000.updateStagingArea "a.txt" "h1" ;;
              Part000.updateStagingArea "a.txt" "h1") staged_ab)
  = index (run (Part000.updateStagingArea "a.txt" "h1") staged_ab).
Proof.
  apply (staging_idempotent staged_ab "a.txt" "h1"
           [entry "a.txt" "h1"; entry "b.txt" "h3"]).
  - vm_compute. reflexivity.
  - repeat constructor; discriminate.
Defined.

(** With the index file absent or unreadable, the second file stages into
    the empty list, and [src/Gyst.js] fails without writing: with the error
    of the read when the file is absent, with the syntax error otherwise. *)
Theorem staging_without_index `{JSONCodec} (w : World) (p h : string) :
  staged w = None ->
  Part000.updateStagingArea p h w
  = (Return tt, store indexPath (JSON_stringify_2 (JArr [entry p h])) w)
  /\ GystJs.updateStagingArea p h w
     = (Throw (match index w with Some _ => SyntaxError | None => ENOENT indexPath end), w).
Proof.
  intros Hnone. split.
  - apply (updateStagingArea_000_run w p h []); [ | constructor ].
    unfold load_index. now rewrite Hnone.
  - unfold staged in Hnone.
    unfold GystJs.updateStagingArea, bind, fs_readFile, JSON_parse_text. cbn [read].
    destruct (index w) as [ text | ]; [ | reflexivity ]. now rewrite Hnone.
Qed.

Lemma staging_without_index_witness :
  Part000.updateStagingArea "a.txt" "h1" work0
  = (Return tt, store indexPath (JSON_stringify_2 (JArr [entry "a.txt" "h1"])) work0)
  /\ GystJs.updateStagingArea "a.txt" "h1" work0
     = (Throw (match index work0 with Some _ => SyntaxError | None => ENOENT indexPath end),
        work0).
Proof. apply (staging_without_index work0 "a.txt" "h1"). reflexivity. Defined.

(** ** [add] *)

(** [add] of a file that cannot be read stores and stages nothing: the
    second file prints the diagnostic and exits with status 1 (after the
    [init] it starts with), [src/Gyst.js] fails with the error of the read
    and leaves the world as it is. *)
Theorem add_unreadable_file `{JSONCodec} (sha1_hex : string -> string)
    (w : World) (f : string) :
  worktree w !! f = None ->
  Part000.add sha1_hex f w
  = (Exit 1,
     print (Err ("Error: cannot read file '" +:+ f +:+ "'.")) (run Part000.init w))
  /\ GystJs.add sha1_hex f w = (Throw (ENOENT (workPath f)), w).
Proof.
  intros Hfile. split.
  - unfold Part000.add, run.
    pose proof (init_000_returns w) as Hret.
    pose proof (init_000_same_store w) as (Hwork & _).
    unfold bind at 1. destruct (Part000.init w) as [r0 w0].
    cbn [fst snd] in Hret, Hwork |- *. subst r0.
    unfold bind at 1, try_catch, fs_readFile. cbn [read]. rewrite Hwork, Hfile.
    reflexivity.
  - unfold GystJs.add, bind, fs_readFile. cbn [read]. now rewrite Hfile.
Qed.

Lemma add_unreadable_file_witness :
  Part000.add toy_digest "c.txt" work0
  = (Exit 1,
     print (Err ("Error: cannot read file '" +:+ "c.txt" +:+ "'.")) (run Part000.init work0))
  /\ GystJs.add toy_digest "c.txt" work0 = (Throw (ENOENT (workPath "c.txt")), work0).
Proof. apply (add_unreadable_file toy_digest work0 "c.txt"). reflexivity. Defined.

(** ** [commit] *)

(** The record that [commit] builds. *)
Definition commit_record (now message : string) (files parent : JSON) : JSON :=
  JObj [("timeStamp", JStr now); ("message", JStr message);
        ("files", files); ("parent", parent)].

(** The parent that the second file records for the content of HEAD. *)
Definition parent_000 (head : string) : JSON :=
  if String.eqb (trim head) "" then JNull else JStr (trim head).

(** The world after the three writes of [commit] and its message; [text] is
    the stored text of the commit and [empty] the text of the empty index. *)
Definition committed (digest text empty : string) (w : World) : World :=
  print (Log ("Commit successfully created: " +:+ digest))
    (store indexPath empty
       (store headPath digest (store (objectPath digest) text w))).

Section CommitMore.
Context `{JSONCodec}.
Variable sha1_hex : string -> string.

Lemma getCurrentHead_000_run w hd :
  HEAD w = Some hd -> Part000.getCurrentHead w = (Return (parent_000 hd), w).
Proof.
  intros Hhead. unfold Part000.getCurrentHead, try_catch, bind, fs_readFile, ret.
  cbn [read]. now rewrite Hhead.
Qed.

Lemma getCurrentHead_js_run w hd :
  HEAD w = Some hd -> GystJs.getCurrentHead w = (Return (JStr hd), w).
Proof.
  intros Hhead. unfold GystJs.getCurrentHead, try_catch, bind, fs_readFile, ret.
  cbn [read]. now rewrite Hhead.
Qed.

Lemma parent_000_or_null hd :
  (if truthy (Some (parent_000 hd)) then parent_000 hd else JNull) = parent_000 hd.
Proof.
  unfold parent_000. destruct (String.eqb (trim hd) "") eqn:He; [ reflexivity | ].
  cbn [truthy]. now rewrite He.
Qed.

Lemma staged_load_index w v : staged w = Some v -> load_index w = v.
Proof. intros Hs. unfold load_index. now rewrite Hs. Qed.

(** [commit] of the second file in an initialised repository with staged
    entries. *)
Lemma commit_000_run w hd now message e l :
  HEAD w = Some hd -> staged w = Some (JArr (e :: l)) ->
  Part000.commit sha1_hex now message w
  = (Return tt,
     committed
       (sha1_hex (JSON_stringify
                    (commit_record now message (JArr (e :: l)) (parent_000 hd))))
       (JSON_stringify_2 (commit_record now message (JArr (e :: l)) (parent_000 hd)))
       (JSON_stringify_2 (JArr [])) w).
Proof.
  intros Hhead Hstaged. unfold Part000.commit.
  unfold bind at 1. rewrite (init_000_initialised w hd Hhead).
  unfold bind at 1. rewrite load_index_run, (staged_load_index w _ Hstaged).
  unfold bind at 1. cbn [length_is_zero ret].
  unfold bind at 1. cbn [ret].
  unfold bind at 1. rewrite (getCurrentHead_000_run w hd Hhead).
  rewrite parent_000_or_null. reflexivity.
Qed.

(** [commit] of [src/Gyst.js], whatever the index parses to. *)
Lemma commit_js_run w hd now message v :
  HEAD w = Some hd -> staged w = Some v ->
  GystJs.commit sha1_hex now message w
  = (Return tt,
     committed
       (sha1_hex (JSON_stringify (commit_record now message v (JStr hd))))
       (JSON_stringify (commit_record now message v (JStr hd)))
       (JSON_stringify (JArr [])) w).
Proof.
  intros Hhead Hstaged. unfold GystJs.commit.
  unfold staged in Hstaged. destruct (index w) as [ text | ] eqn:Hindex; [ | discriminate ].
  unfold bind at 1, fs_readFile at 1. cbn [read]. rewrite Hindex.
  unfold bind at 1, JSON_parse_text at 1. rewrite Hstaged. cbn [ret].
  unfold bind at 1. rewrite (getCurrentHead_js_run w hd Hhead).
  reflexivity.
Qed.

Lemma HEAD_commit_committed digest text empty w c :
  JSON_parse text = Some c ->
  HEAD_commit (committed digest text empty w) = Some c.
Proof.
  intros Htext. unfold HEAD_commit, committed. cbn [print store HEAD objects].
  now rewrite lookup_insert_eq.
Qed.

Lemma history_insert objs name text cs : forall cur tail,
  objs !! name = None ->
  history objs cur cs tail -> history (<[name := text]> objs) cur cs tail.
Proof.
  induction cs as [ | [h c] cs IH ]; intros cur tail Hfresh Hhist; simpl in *.
  - exact Hhist.
  - destruct Hhist as (Hcur & Hh & Hobj & Hnull & Hrest).
    repeat split; try assumption.
    + destruct (decide (name = h)) as [ -> | Hne ].
      * now rewrite Hfresh in Hobj.
      * now rewrite lookup_insert_ne.
    + now apply IH.
Qed.
End CommitMore.

(** A [commit] with staged entries in an initialised repository returns;
    HEAD then names the digest of the compact text of the record, the
    object under that digest parses to the record (time stamp, message, the
    staged list as it was, the former head as parent), and the index is the
    empty list.  The second file records the trimmed head, or [null] for an
    empty one; [src/Gyst.js] records the content of HEAD as it is. *)
Theorem commit_records_staged_entries `{JSONCodec} (sha1_hex : string -> string)
    (w : World) (hd now message : string) (e : JSON) (l : list JSON) :
  HEAD w = Some hd -> staged w = Some (JArr (e :: l)) ->
  (exists w',
     Part000.commit sha1_hex now message w = (Return tt, w')
     /\ HEAD w' = Some (sha1_hex (JSON_stringify
                          (commit_record now message (JArr (e :: l)) (parent_000 hd))))
     /\ HEAD_commit w' = Some (commit_record now message (JArr (e :: l)) (parent_000 hd))
     /\ staged w' = Some (JArr []))
  /\ (exists w',
        GystJs.commit sha1_hex now message w = (Return tt, w')
        /\ HEAD w' = Some (sha1_hex (JSON_stringify
                             (commit_record now message (JArr (e :: l)) (JStr hd))))
        /\ HEAD_commit w' = Some (commit_record now message (JArr (e :: l)) (JStr hd))
        /\ staged w' = Some (JArr [])).
Proof.
  intros Hhead Hstaged. split; eexists; (split; [ | split; [ | split ] ]).
  - apply (commit_000_run sha1_hex w hd now message e l Hhead Hstaged).
  - reflexivity.
  - apply HEAD_commit_committed, JSON_parse_stringify_2.
  - unfold staged, committed. cbn [print store index]. apply JSON_parse_stringify_2.
  - apply (commit_js_run sha1_hex w hd now message _ Hhead Hstaged).
  - reflexivity.
  - apply HEAD_commit_committed, JSON_parse_stringify.
  - unfold staged, committed. cbn [print store index]. apply JSON_parse_stringify.
Qed.

Lemma commit_records_staged_entries_witness :
  (exists w',
     Part000.commit toy_digest "t1" "first" staged_ab = (Return tt, w')
     /\ HEAD w' = Some (toy_digest (JSON_stringify
                          (commit_record "t1" "first"
                             (JArr [entry "a.txt" "h1"; entry "b.txt" "h3"])
                             (parent_000 ""))))
     /\ HEAD_commit w' = Some (commit_record "t1" "first"
                                 (JArr [entry "a.txt" "h1"; entry "b.txt" "h3"])
                                 (parent_000 ""))
     /\ staged w' = Some (JArr []))
  /\ (exists w',
        GystJs.commit toy_digest "t1" "first" staged_ab = (Return tt, w')
        /\ HEAD w' = Some (toy_digest (JSON_stringify
                             (commit_record "t1" "first"
                                (JArr [entry "a.txt" "h1"; entry "b.txt" "h3"])
                                (JStr ""))))
        /\ HEAD_commit w' = Some (commit_record "t1" "first"
                                    (JArr [entry "a.txt" "h1"; entry "b.txt" "h3"])
                                    (JStr ""))
        /\ staged w' = Some (JArr [])).
Proof.
  apply (commit_records_staged_entries toy_digest staged_ab "" "t1" "first"
           (entry "a.txt" "h1") [entry "b.txt" "h3"]).
  - reflexivity.
  - vm_compute. reflexivity.
Defined.

(** [commit] puts the new commit in front of the history: when the digest
    of the new record is not yet the name of an object, [log] after the
    [commit] prints the new commit and then the commits that [log] printed
    before.  Second file. *)
Theorem log_after_commit `{JSONCodec} (sha1_hex : string -> string)
    (w : World) (hd now message : string) (e : JSON) (l : list JSON)
    (cs : list (string * JSON)) (tail : JSValue) (fuel : nat) :
  let record := commit_record now message (JArr (e :: l)) (parent_000 hd) in
  let digest := sha1_hex (JSON_stringify record) in
  HEAD w = Some hd -> staged w = Some (JArr (e :: l)) ->
  history (objects w) (Some (parent_000 hd)) cs tail -> truthy tail = false ->
  objects w !! digest = None -> digest <> "" -> trim digest = digest ->
  length cs < fuel ->
  Part000.log fuel (run (Part000.commit sha1_hex now message) w)
  = (Return tt,
     prints (log_entry_000 (digest, record) ++ flat_map log_entry_000 cs)
       (run (Part000.commit sha1_hex now message) w)).
Proof.
  intros record digest Hhead Hstaged Hhist Htail Hfresh Hne Htrim Hfuel.
  unfold run. rewrite (commit_000_run sha1_hex w hd now message e l Hhead Hstaged).
  fold record. fold digest. cbn [snd].
  set (w' := committed digest (JSON_stringify_2 record) (JSON_stringify_2 (JArr [])) w).
  assert (Hhist' : history (objects w') (Some (JStr digest)) ((digest, record) :: cs) tail).
  { cbn [history]. unfold w', committed. cbn [print store objects].
    rewrite lookup_insert_eq. repeat split.
    - exact Hne.
    - apply JSON_parse_stringify_2.
    - discriminate.
    - apply history_insert; assumption. }
  rewrite (log_000_start fuel w' digest eq_refl Htrim Hne).
  replace fuel with (length ((digest, record) :: cs) + (fuel - S (length cs)))
    by (cbn [length]; lia).
  rewrite (log_while_000_history _ _ tail _ _ Hhist').
  now apply log_while_000_done.
Qed.

Lemma log_after_commit_witness :
  Part000.log 1 (run (Part000.commit toy_digest "t1" "first") staged_ab)
  = (Return tt,
     prints
       (log_entry_000
          (toy_digest (JSON_stringify
             (commit_record "t1" "first"
                (JArr [entry "a.txt" "h1"; entry "b.txt" "h3"]) (parent_000 ""))),
           commit_record "t1" "first"
             (JArr [entry "a.txt" "h1"; entry "b.txt" "h3"]) (parent_000 ""))
        ++ flat_map log_entry_000 [])
       (run (Part000.commit toy_digest "t1" "first") staged_ab)).
Proof.
  apply (log_after_commit toy_digest staged_ab "" "t1" "first"
           (entry "a.txt" "h1") [entry "b.txt" "h3"] [] (Some JNull) 1).
  - reflexivity.
  - vm_compute. reflexivity.
  - reflexivity.
  - reflexivity.
  - reflexivity.
  - discriminate.
  - vm_compute. reflexivity.
  - simpl. lia.
Defined.

(** ** [log] before the first commit and outside a repository *)

(** With a HEAD file that holds only white space the second file prints
    that there are no commits and returns; [src/Gyst.js] prints nothing
    when the HEAD file is empty. *)
Theorem log_without_commits `{JSONCodec} (w : World) (h : string) (fuel : nat) :
  HEAD w = Some h -> trim h = "" ->
  Part000.log fuel w = (Return tt, print (Log "No commits yet.") w)
  /\ (h = "" -> GystJs.log fuel w = (Return tt, w)).
Proof.
  intros Hhead Htrim. split.
  - unfold Part000.log.
    unfold bind at 1, try_catch, fs_access. cbn [read]. rewrite Hhead.
    unfold bind at 1. rewrite (getCurrentHead_000_run w h Hhead).
    unfold parent_000. rewrite Htrim. reflexivity.
  - intros ->. rewrite (log_js_start fuel w "" Hhead).
    now apply log_while_js_done.
Qed.

Lemma log_without_commits_witness :
  Part000.log 0 fresh = (Return tt, print (Log "No commits yet.") fresh)
  /\ ("" = "" -> GystJs.log 0 fresh = (Return tt, fresh)).
Proof. apply (log_without_commits fresh "" 0); reflexivity. Defined.

(** Without a HEAD file the second file reports that there is no
    repository and exits with status 1, both for [log] and for
    [showCommitDiff]; [log] of [src/Gyst.js] returns without a word. *)
Theorem no_repository `{JSONCodec} (diffLines : string -> string -> list Change)
    (w : World) (fuel : nat) (commitHash : string) :
  HEAD w = None ->
  Part000.log fuel w
  = (Exit 1, print (Err "Error: no Gyst repository found. Did you run 'gyst init'?") w)
  /\ Part000.showCommitDiff diffLines commitHash w
     = (Exit 1, print (Err "Error: no Gyst repository found. Did you run 'gyst init'?") w)
  /\ GystJs.log fuel w = (Return tt, w).
Proof.
  intros Hhead. repeat split.
  - unfold Part000.log, bind, try_catch, fs_access. cbn [read]. now rewrite Hhead.
  - unfold Part000.showCommitDiff, bind, try_catch, fs_access. cbn [read].
    now rewrite Hhead.
  - unfold GystJs.log. unfold bind. rewrite (getCurrentHead_js_absent w Hhead).
    now apply log_while_js_done.
Qed.

Lemma no_repository_witness :
  Part000.log 3 work0
  = (Exit 1, print (Err "Error: no Gyst repository found. Did you run 'gyst init'?") work0)
  /\ Part000.showCommitDiff DiffRenderer.diffLines "c1" work0
     = (Exit 1,
        print (Err "Error: no Gyst repository found. Did you run 'gyst init'?") work0)
  /\ GystJs.log 3 work0 = (Return tt, work0).
Proof. apply (no_repository DiffRenderer.diffLines work0 3 "c1"). reflexivity. Defined.

(** ** [showCommitDiff] against a stored parent *)

(** What the printing loop writes for one part of a diff. *)
Definition part_out (minus : string) (part : Change) : Out :=
  if added part then Stdout green ("++ " +:+ value part)
  else if removed part then Stdout red (minus +:+ value part)
  else Stdout grey (value part).

(** The first entry of the parent commit for a path:
    [files.find(f => f.path === filePath)]. *)
Definition parent_entry (pfiles : list JSON) (path : JSValue) : option JSON :=
  List.find (fun f => strict_eq (field f "path") path) pfiles.

(** What [showCommitDiff] prints for one file of a commit whose parent is
    stored: the path, the content, and the diff against the content that
    the parent has for the path, or the note of a new file. *)
Definition file_diff_000 (diffLines : string -> string -> list Change)
    (objs : gmap string string) (pfiles : list JSON) (e : JSON) : list Out :=
  [ Log ("File: " +:+ template (field e "path"));
    Log (text_of (read_blob_000 objs e)) ]
  ++ match parent_entry pfiles (field e "path") with
     | Some pf =>
         [Log (LF +:+ "Diff:")]
         ++ map (part_out "--")
              (diffLines (text_of (read_blob_000 objs pf)) (text_of (read_blob_000 objs e)))
         ++ [Log LF]
     | None => [Log ("  (New file in this commit)" +:+ LF)]
     end.

Definition file_diff_js (diffLines : string -> string -> list Change)
    (objs : gmap string string) (pfiles : list JSON) (e : JSON) : list Out :=
  [ Log ("File: " +:+ template (field e "path"));
    Log (text_of (read_blob_js objs e)) ]
  ++ match parent_entry pfiles (field e "path") with
     | Some pf =>
         [Log (LF +:+ "Diff:")]
         ++ map (part_out "-- ")
              (diffLines (text_of (read_blob_js objs pf)) (text_of (read_blob_js objs e)))
         ++ [Log ""]
     | None => [Log "New file in this commit"]
     end.

Lemma findM_pure (test : JSON -> M bool) (f : JSON -> bool) (l : list JSON) :
  Forall (fun x => test x = ret (f x)) l ->
  findM test l = ret (List.find f l).
Proof.
  induction 1 as [ | x l Hx Hl IH ]; simpl.
  - reflexivity.
  - rewrite Hx, IH. unfold bind, ret. destruct (f x); reflexivity.
Qed.

Lemma find_Forall {A} (P : A -> Prop) (f : A -> bool) (l : list A) x :
  Forall P l -> List.find f l = Some x -> P x.
Proof.
  induction 1 as [ | y l Hy Hl IH ]; simpl; [ discriminate | ].
  destruct (f y); [ intros [= <-]; exact Hy | exact IH ].
Qed.

Lemma forEach_write_part minus parts outs w :
  forEach (write_part minus) parts (prints outs w)
  = (Return tt, prints (outs ++ map (part_out minus) parts) w).
Proof.
  revert outs. induction parts as [ | part parts IH ]; intros outs; simpl.
  - now rewrite app_nil_r.
  - eapply run_bind.
    + unfold write_part. instantiate (1 := prints (outs ++ [part_out minus part]) w).
      instantiate (1 := tt). unfold part_out.
      destruct (added part); [ | destruct (removed part) ]; apply run_stdout_write.
    + cbn beta. rewrite IH, <- app_assoc. reflexivity.
Qed.

Section ShowParent.
Context `{JSONCodec}.
Variable diffLines : string -> string -> list Change.

#[local] Hint Resolve run_getFileContent_000 run_getFileContent_js
  run_getCommitRaw_missing run_getCommitRaw_stored
  run_getCommitData_missing run_getCommitData_stored : run.

Lemma blob_truthy objs e : read_blob_000 objs e <> None -> truthy (Some e) = true.
Proof.
  unfold read_blob_000. destruct e; cbn [field]; try congruence. reflexivity.
Qed.

Lemma run_getParentFileContent_000 w pc pfiles path outs :
  field pc "files" = Some (JArr pfiles) ->
  Forall (fun f => read_blob_000 (objects w) f <> None) pfiles ->
  Part000.getParentFileContent pc path (prints outs w)
  = (Return (match parent_entry pfiles path with
             | Some pf => read_blob_000 (objects w) pf
             | None => None
             end), prints outs w).
Proof.
  intros Hfiles Hblobs.
  assert (Hpc : pc <> JNull) by (eapply field_not_null; eauto).
  unfold Part000.getParentFileContent.
  eapply run_bind; [ apply run_member; exact Hpc | cbn beta; rewrite Hfiles ].
  eapply run_bind.
  - cbn [Array_find].
    rewrite (findM_pure _ (fun f => strict_eq (field f "path") path)); [ reflexivity | ].
    eapply Forall_impl; [ exact Hblobs | ]. intros f Hf. cbn beta.
    assert (Hne : f <> JNull).
    { destruct (read_blob_000_hash _ _ Hf) as (n & Hn & _). eapply field_not_null; eauto. }
    now rewrite (member_field f "path" Hne).
  - cbn beta. fold (parent_entry pfiles path).
    destruct (parent_entry pfiles path) as [ pf | ] eqn:Hfind; [ | reflexivity ].
    assert (Hpf : read_blob_000 (objects w) pf <> None).
    { exact (find_Forall _ _ pfiles pf Hblobs Hfind). }
    rewrite (blob_truthy _ _ Hpf).
    destruct (read_blob_000_hash _ _ Hpf) as (n & Hn & Htext).
    assert (Hne : pf <> JNull) by (eapply field_not_null; eauto).
    eapply run_bind; [ apply run_member; exact Hne | cbn beta ].
    eapply run_bind; [ apply (run_getFileContent_000 w pf n outs Hn) | cbn beta ].
    destruct (read_blob_000 (objects w) pf); [ reflexivity | congruence ].
Qed.

Lemma run_getParentFileContent_js w pc pfiles path outs :
  field pc "files" = Some (JArr pfiles) ->
  Forall (fun f => read_blob_js (objects w) f <> None) pfiles ->
  GystJs.getParentFileContent pc path (prints outs w)
  = (Return (match parent_entry pfiles path with
             | Some pf => read_blob_js (objects w) pf
             | None => None
             end), prints outs w).
Proof.
  intros Hfiles Hblobs.
  assert (Hpc : pc <> JNull) by (eapply field_not_null; eauto).
  unfold GystJs.getParentFileContent.
  eapply run_bind; [ apply run_member; exact Hpc | cbn beta; rewrite Hfiles ].
  eapply run_bind.
  - cbn [Array_find].
    rewrite (findM_pure _ (fun f => strict_eq (field f "path") path)); [ reflexivity | ].
    eapply Forall_impl; [ exact Hblobs | ]. intros f Hf. cbn beta.
    assert (Hne : f <> JNull).
    { destruct (read_blob_js_hash _ _ Hf) as (n & Hn & _). eapply field_not_null; eauto. }
    now rewrite (member_field f "path" Hne).
  - cbn beta. fold (parent_entry pfiles path).
    destruct (parent_entry pfiles path) as [ pf | ] eqn:Hfind; [ | reflexivity ].
    assert (Hpf : read_blob_js (objects w) pf <> None).
    { exact (find_Forall _ _ pfiles pf Hblobs Hfind). }
    assert (Htruthy : truthy (Some pf) = true).
    { apply (blob_truthy (objects w)). rewrite (read_blob_js_000 _ _ Hpf). exact Hpf. }
    rewrite Htruthy.
    destruct (read_blob_js_hash _ _ Hpf) as (n & Hn & Hstored).
    assert (Hne : pf <> JNull) by (eapply field_not_null; eauto).
    eapply run_bind; [ apply run_member; exact Hne | cbn beta ].
    eapply run_bind; [ apply (run_getFileContent_js w pf n _ outs Hn Hstored) | cbn beta ].
    destruct (read_blob_js (objects w) pf); [ reflexivity | congruence ].
Qed.

Lemma showCommitDiff_file_000_parent w c e p praw pc pfiles outs :
  field c "parent" = Some (JStr p) -> p <> "" ->
  objects w !! p = Some praw -> JSON_parse praw = Some pc ->
  field pc "files" = Some (JArr pfiles) ->
  Forall (fun f => read_blob_000 (objects w) f <> None) pfiles ->
  read_blob_000 (objects w) e <> None ->
  Part000.showCommitDiff_file diffLines c e (prints outs w)
  = (Return tt, prints (outs ++ file_diff_000 diffLines (objects w) pfiles e) w).
Proof.
  intros Hparent Hp Hpraw Hparse Hfiles Hblobs Hblob.
  destruct (read_blob_000_hash _ _ Hblob) as (name & Hname & _).
  assert (He : e <> JNull) by (eapply field_not_null; eauto).
  assert (Hc : c <> JNull) by (eapply field_not_null; eauto).
  assert (Htext : String.eqb praw "" = false).
  { destruct (String.eqb_spec praw ""); [ | reflexivity ].
    subst praw. rewrite JSON_parse_empty in Hparse. discriminate. }
  unfold Part000.showCommitDiff_file, file_diff_000.
  do 6 step. rewrite Hparent, (truthy_digest p Hp).
  step. rewrite Htext. step. step.
  eapply run_bind;
    [ apply (run_getParentFileContent_000 w pc pfiles _ _ Hfiles Hblobs) | cbn beta ].
  destruct (parent_entry pfiles (field e "path")) as [ pf | ] eqn:Hfind.
  - assert (Hpf : read_blob_000 (objects w) pf <> None).
    { exact (find_Forall _ _ pfiles pf Hblobs Hfind). }
    destruct (read_blob_000 (objects w) pf) as [ old | ] eqn:Hold; [ | congruence ].
    cbn [text_of]. step.
    eapply run_bind; [ apply forEach_write_part | cbn beta ].
    rewrite run_console_log, <- !app_assoc. reflexivity.
  - rewrite run_console_log, <- !app_assoc. reflexivity.
Qed.

Lemma showCommitDiff_file_js_parent w c e p praw pc pfiles outs :
  field c "parent" = Some (JStr p) -> p <> "" ->
  objects w !! p = Some praw -> JSON_parse praw = Some pc ->
  field pc "files" = Some (JArr pfiles) ->
  Forall (fun f => read_blob_js (objects w) f <> None) pfiles ->
  read_blob_js (objects w) e <> None ->
  GystJs.showCommitDiff_file diffLines c e (prints outs w)
  = (Return tt, prints (outs ++ file_diff_js diffLines (objects w) pfiles e) w).
Proof.
  intros Hparent Hp Hpraw Hparse Hfiles Hblobs Hblob.
  destruct (read_blob_js_hash _ _ Hblob) as (name & Hname & Hstored).
  assert (He : e <> JNull) by (eapply field_not_null; eauto).
  assert (Hc : c <> JNull) by (eapply field_not_null; eauto).
  unfold GystJs.showCommitDiff_file, file_diff_js.
  do 6 step. rewrite Hparent, (truthy_digest p Hp).
  step. unfold GystJs.JSON_parse_nullable. step. step.
  eapply run_bind;
    [ apply (run_getParentFileContent_js w pc pfiles _ _ Hfiles Hblobs) | cbn beta ].
  destruct (parent_entry pfiles (field e "path")) as [ pf | ] eqn:Hfind.
  - assert (Hpf : read_blob_js (objects w) pf <> None).
    { exact (find_Forall _ _ pfiles pf Hblobs Hfind). }
    destruct (read_blob_js (objects w) pf) as [ old | ] eqn:Hold; [ | congruence ].
    cbn [text_of]. step.
    eapply run_bind; [ apply forEach_write_part | cbn beta ].
    rewrite run_console_log, <- !app_assoc. reflexivity.
  - rewrite run_console_log, <- !app_assoc. reflexivity.
Qed.
End ShowParent.

(** For a stored commit whose parent is stored, both with entries of stored
    blobs as files, [showCommitDiff] prints for every file its path and
    content and then either the parts of the diff between the content that
    the first entry of the parent with the same path names and the content
    of the file, in the order [diffLines] gives them, or the note that the
    file is new; then it returns.  Both files; they differ in the heading,
    the notes and the prefix of a removed part. *)
Theorem showCommitDiff_against_parent `{JSONCodec}
    (diffLines : string -> string -> list Change) (w : World)
    (hd h raw p praw : string) (c pc : JSON) (files pfiles : list JSON) :
  HEAD w = Some hd ->
  objects w !! h = Some raw -> JSON_parse raw = Some c ->
  field c "parent" = Some (JStr p) -> p <> "" ->
  objects w !! p = Some praw -> JSON_parse praw = Some pc ->
  field c "files" = Some (JArr files) -> field pc "files" = Some (JArr pfiles) ->
  Forall (fun e => read_blob_js (objects w) e <> None) files ->
  Forall (fun f => read_blob_js (objects w) f <> None) pfiles ->
  Part000.showCommitDiff diffLines h w
  = (Return tt,
     prints (Log ("Changes in commit " +:+ h +:+ ":" +:+ LF)
             :: flat_map (file_diff_000 diffLines (objects w) pfiles) files) w)
  /\ GystJs.showCommitDiff diffLines h w
     = (Return tt,
        prints (Log ("Changes in the last commit are" +:+ LF)
                :: flat_map (file_diff_js diffLines (objects w) pfiles) files) w).
Proof.
  intros Hhead Hraw Hparse Hparent Hp Hpraw Hpparse Hfiles Hpfiles Hblobs Hpblobs.
  assert (Hpblobs0 : Forall (fun f => read_blob_000 (objects w) f <> None) pfiles).
  { eapply Forall_impl; [ exact Hpblobs | ]. intros f Hf.
    now rewrite (read_blob_js_000 _ _ Hf). }
  split.
  - rewrite (showCommitDiff_000_stored diffLines w hd h raw c files) by assumption.
    apply (forEach_prints _ (file_diff_000 diffLines (objects w) pfiles)).
    eapply Forall_impl; [ exact Hblobs | ]. intros e He outs.
    apply (showCommitDiff_file_000_parent diffLines w c e p praw pc pfiles);
      try assumption.
    now rewrite (read_blob_js_000 _ _ He).
  - rewrite (showCommitDiff_js_stored diffLines w h raw c files) by assumption.
    apply (forEach_prints _ (file_diff_js diffLines (objects w) pfiles)).
    eapply Forall_impl; [ exact Hblobs | ]. intros e He outs.
    now apply (showCommitDiff_file_js_parent diffLines w c e p praw pc pfiles).
Qed.

(** The second commit of the repository of two commits against the first. *)
Lemma showCommitDiff_against_parent_witness :
  Part000.showCommitDiff DiffRenderer.diffLines "c2" repo2
  = (Return tt,
     prints (Log ("Changes in commit " +:+ "c2" +:+ ":" +:+ LF)
             :: flat_map (file_diff_000 DiffRenderer.diffLines (objects repo2)
                            [entry "a.txt" "b1"; entry "b.txt" "b3"])
                  [entry "a.txt" "b2"; entry "b.txt" "b3"]) repo2)
  /\ GystJs.showCommitDiff DiffRenderer.diffLines "c2" repo2
     = (Return tt,
        prints (Log ("Changes in the last commit are" +:+ LF)
                :: flat_map (file_diff_js DiffRenderer.diffLines (objects repo2)
                               [entry "a.txt" "b1"; entry "b.txt" "b3"])
                     [entry "a.txt" "b2"; entry "b.txt" "b3"]) repo2).
Proof.
  apply (showCommitDiff_against_parent DiffRenderer.diffLines repo2
           "c2" "c2" (RefJSON.stringify_2 commit2) "c1" (RefJSON.stringify_2 commit1)
           commit2 commit1).
  - reflexivity.
  - reflexivity.
  - vm_compute. reflexivity.
  - reflexivity.
  - discriminate.
  - reflexivity.
  - vm_compute. reflexivity.
  - reflexivity.
  - reflexivity.
  - repeat constructor; vm_compute; discriminate.
  - repeat constructor; vm_compute; discriminate.
Defined.

(** Scenario 3 of the specification on that repository, with the renderer
    of the specification: [a.txt] is shown as one removed and one added
    part, the unchanged [b.txt] as one part in grey. *)
Lemma scenario_3_diff :
  fst (Part000.showCommitDiff DiffRenderer.diffLines "c2" repo2) = Return tt
  /\ console (snd (Part000.showCommitDiff DiffRenderer.diffLines "c2" repo2))
     = [ Log ("Changes in commit c2:" +:+ LF);
         Log "File: a.txt"; Log "hello world"; Log (LF +:+ "Diff:");
         Stdout red "--hello"; Stdout green "++ hello world"; Log LF;
         Log "File: b.txt"; Log "world"; Log (LF +:+ "Diff:");
         Stdout grey "world"; Log LF ].
Proof. split; vm_compute; reflexivity. Qed.

(** ** [showCommitDiff] of a digest that names no object *)

(** For a digest without an object the second file, in a repository, prints
    that the commit is not found and exits with status 1; [src/Gyst.js]
    logs the failed read, prints that the commit is not found and returns
    as if nothing had failed. *)
Theorem showCommitDiff_unknown_commit `{JSONCodec}
    (diffLines : string -> string -> list Change) (w : World) (hd h : string) :
  HEAD w = Some hd -> objects w !! h = None ->
  Part000.showCommitDiff diffLines h w
  = (Exit 1, prints [Err ("Commit " +:+ h +:+ " not found.")] w)
  /\ GystJs.showCommitDiff diffLines h w
     = (Return tt,
        prints [ LogError ("Failed to read the commit data for " +:+ h +:+ ":")
                   (ENOENT (objectPath h));
                 Log ("Commit " +:+ h +:+ " not found.") ] w).
Proof.
  intros Hhead Hnone. split.
  - unfold Part000.showCommitDiff.
    unfold bind at 1, try_catch at 1, fs_access at 1. cbn [read]. rewrite Hhead.
    start w. eapply run_bind; [ apply run_getCommitRaw_missing; exact Hnone | cbn beta ].
    eapply run_bind; [ apply run_console_error | reflexivity ].
  - unfold GystJs.showCommitDiff.
    start w. eapply run_bind; [ apply run_getCommitData_missing; exact Hnone | cbn beta ].
    eapply run_bind; [ reflexivity | cbn beta ]. cbn [truthy negb].
    apply run_console_log.
Qed.

Lemma showCommitDiff_unknown_commit_witness :
  Part000.showCommitDiff DiffRenderer.diffLines "c9" repo2
  = (Exit 1, prints [Err ("Commit " +:+ "c9" +:+ " not found.")] repo2)
  /\ GystJs.showCommitDiff DiffRenderer.diffLines "c9" repo2
     = (Return tt,
        prints [ LogError ("Failed to read the commit data for " +:+ "c9" +:+ ":")
                   (ENOENT (objectPath "c9"));
                 Log ("Commit " +:+ "c9" +:+ " not found.") ] repo2).
Proof.
  apply (showCommitDiff_unknown_commit DiffRenderer.diffLines repo2 "c2" "c9");
    reflexivity.
Defined.

(** ** What the operations never do *)

(** [log] and [showCommitDiff] write no file, however they end: the files
    of the repository and of the working tree, and the journal of writes,
    are as before.  Both files. *)
Theorem log_and_diff_write_nothing `{JSONCodec}
    (diffLines : string -> string -> list Change) (fuel : nat) (h : string)
    (w : World) :
  same_files w (snd (Part000.log fuel w))
  /\ same_files w (snd (GystJs.log fuel w))
  /\ same_files w (snd (Part000.showCommitDiff diffLines h w))
  /\ same_files w (snd (GystJs.showCommitDiff diffLines h w)).
Proof.
  repeat split;
    first [ apply log_000_same_files | apply log_js_same_files
          | apply (showCommitDiff_000_same_files diffLines)
          | apply (showCommitDiff_js_same_files diffLines) ].
Qed.

(** The working tree is as before and no object of the store is gone. *)
Definition retains (w w' : World) : Prop :=
  worktree w' = worktree w
  /\ forall name, is_Some (objects w !! name) -> is_Some (objects w' !! name).

Lemma retains_frame : Frame retains.
Proof.
  split.
  - intros w. split; [ reflexivity | auto ].
  - intros w1 w2 w3 [Hw12 Ho12] [Hw23 Ho23]. split; [ congruence | auto ].
  - intros o w. split; [ reflexivity | auto ].
Qed.

Lemma retains_store p data w :
  (forall file, p <> workPath file) -> retains w (store p data w).
Proof.
  intros Hp. destruct p; try solve [ split; [ reflexivity | auto ] ].
  - split; [ reflexivity | ]. intros n [c Hc]. cbn [store objects].
    destruct (decide (name = n)) as [ -> | Hne ].
    + rewrite lookup_insert_eq. eauto.
    + rewrite lookup_insert_ne by exact Hne. eauto.
  - now destruct (Hp file).
Qed.

Lemma retains_writeFile p data :
  (forall file, p <> workPath file) -> keeps retains (fs_writeFile p data).
Proof. intros Hp w. now apply retains_store. Qed.

Lemma retains_writeFile_wx p data :
  (forall file, p <> workPath file) -> keeps retains (fs_writeFile_wx p data).
Proof.
  intros Hp w. unfold fs_writeFile_wx. destruct (read w p).
  - apply (frame_refl _ retains_frame).
  - now apply retains_store.
Qed.

Lemma same_files_retains w w' : same_files w w' -> retains w w'.
Proof.
  intros (Hwork & Hobjs & _). split; [ exact Hwork | ]. now rewrite Hobjs.
Qed.

Ltac keeps_retains :=
  repeat first
    [ apply retains_writeFile; discriminate
    | apply retains_writeFile_wx; discriminate
    | progress keeps_tac retains_frame ].

(** No operation writes into the working tree, and none removes an object
    from the store, however it ends.  Both files. *)
Theorem operations_retain_objects_and_worktree `{JSONCodec}
    (sha1_hex : string -> string) (diffLines : string -> string -> list Change)
    (o : operation) (w : World) :
  retains w (snd (perform_000 sha1_hex diffLines o w))
  /\ retains w (snd (perform_js sha1_hex diffLines o w)).
Proof.
  destruct o as [ | f | now message | fuel | h ]; cbn [perform_000 perform_js].
  - split; unfold Part000.init, GystJs.init; keeps_retains.
  - split.
    + unfold Part000.add, Part000.init, Part000.updateStagingArea. keeps_retains.
    + unfold GystJs.add, GystJs.updateStagingArea. keeps_retains.
  - split.
    + unfold Part000.commit, Part000.init, Part000.getCurrentHead. keeps_retains.
    + unfold GystJs.commit, GystJs.getCurrentHead. keeps_retains.
  - split; apply same_files_retains;
      [ apply log_000_same_files | apply log_js_same_files ].
  - split; apply same_files_retains;
      [ apply (showCommitDiff_000_same_files diffLines)
      | apply (showCommitDiff_js_same_files diffLines) ].
Qed.

(** ** The dispatcher of the second file *)

(** The operation that a command line asks for, if it is well formed. *)
Definition operation_of (fuel : nat) (now : string) (argv : list string)
  : option operation :=
  match argv with
  | [] => None
  | command :: args =>
      if String.eqb command "init" then Some op_init
      else if String.eqb command "add" then
        match args with [file] => Some (op_add file) | _ => None end
      else if String.eqb command "commit" then
        match args with
        | [] => None
        | _ :: _ => Some (op_commit now (Part000.join_args args))
        end
      else if String.eqb command "log" then Some (op_log fuel)
      else if String.eqb command "diff" then
        match args with [h] => Some (op_show h) | _ => None end
      else None
  end.

(** The dispatcher does nothing to the repository by itself: a command line
    either runs one operation of the class (for [commit], with its
    arguments joined by blanks as the message), or prints one line and
    exits, with status 1 for a known command with the wrong number of
    arguments and status 0 for an unknown or a missing command. *)
Theorem main_dispatches_or_exits `{JSONCodec} (sha1_hex : string -> string)
    (diffLines : string -> string -> list Change) (paint : Chalk -> string -> string)
    (fuel : nat) (now : string) (argv : list string) (w : World) :
  match operation_of fuel now argv with
  | Some o =>
      Part000.main sha1_hex diffLines paint fuel now argv w
      = perform_000 sha1_hex diffLines o w
  | None =>
      exists code line,
        Part000.main sha1_hex diffLines paint fuel now argv w
        = (Exit code, print line w)
        /\ (code = 0 <->
            match argv with
            | [] => True
            | command :: _ =>
                ~ In command ["init"; "add"; "commit"; "log"; "diff"]
            end)%Z
        /\ (code = 0 \/ code = 1)%Z
  end.
Proof.
  destruct argv as [ | command args ]; cbn [operation_of Part000.main].
  - eexists 0%Z, _. split; [ reflexivity | ]. split; [ tauto | now left ].
  - destruct (String.eqb_spec command "init") as [ -> | Hinit ]; [ reflexivity | ].
    destruct (String.eqb_spec command "add") as [ -> | Hadd ].
    { destruct args as [ | file [ | ] ]; try reflexivity;
        (eexists 1%Z, _; split; [ reflexivity | ]; split; [ | now right ];
         split; [ discriminate | intros Hin; exfalso; apply Hin; simpl; tauto ]). }
    destruct (String.eqb_spec command "commit") as [ -> | Hcommit ].
    { destruct args as [ | a rest ]; [ | reflexivity ].
      eexists 1%Z, _. split; [ reflexivity | ]. split; [ | now right ].
      split; [ discriminate | intros Hin; exfalso; apply Hin; simpl; tauto ]. }
    destruct (String.eqb_spec command "log") as [ -> | Hlog ]; [ reflexivity | ].
    destruct (String.eqb_spec command "diff") as [ -> | Hdiff ].
    { destruct args as [ | h [ | ] ]; try reflexivity;
        (eexists 1%Z, _; split; [ reflexivity | ]; split; [ | now right ];
         split; [ discriminate | intros Hin; exfalso; apply Hin; simpl; tauto ]). }
    eexists 0%Z, _. split; [ reflexivity | ]. split; [ | now left ].
    split; [ | reflexivity ]. intros _ Hin. simpl in Hin.
    destruct Hin as [ <- | [ <- | [ <- | [ <- | [ <- | [] ] ] ] ] ]; congruence.
Qed.

(** ** A history with a cycle *)

(** [log] does not look out for cycles: when the commit that HEAD names has
    itself as its parent, the loop goes on for as long as it is run.
    Both files. *)
Theorem log_cycle_never_ends `{JSONCodec} (w : World) (h raw : string) (c : JSON)
    (fuel : nat) :
  HEAD w = Some h -> trim h = h -> h <> "" ->
  objects w !! h = Some raw -> JSON_parse raw = Some c ->
  field c "parent" = Some (JStr h) ->
  fst (Part000.log fuel w) = OutOfFuel /\ fst (GystJs.log fuel w) = OutOfFuel.
Proof.
  intros Hhead Htrim Hh Hraw Hparse Hparent.
  assert (Hc : c <> JNull) by (eapply field_not_null; eauto).
  rewrite (log_000_start fuel w h Hhead Htrim Hh), (log_js_start fuel w h Hhead).
  assert (H000 : forall fuel outs,
             fst (Part000.log_while fuel (Some (JStr h)) (prints outs w)) = OutOfFuel).
  { clear fuel. induction fuel as [ | fuel IH ]; intros outs.
    - cbn [Part000.log_while]. now rewrite (truthy_digest h Hh).
    - rewrite (log_while_000_step fuel h c (prints outs w) raw Hh Hraw Hparse Hc).
      rewrite Hparent, prints_prints. apply IH. }
  assert (Hjs : forall fuel outs,
             fst (GystJs.log_while fuel (Some (JStr h)) (prints outs w)) = OutOfFuel).
  { clear fuel H000. induction fuel as [ | fuel IH ]; intros outs.
    - cbn [GystJs.log_while]. now rewrite (truthy_digest h Hh).
    - rewrite (log_while_js_step fuel h c (prints outs w) raw Hh Hraw Hparse Hc).
      rewrite Hparent, prints_prints. apply IH. }
  rewrite <- (prints_nil w). split; [ apply H000 | apply Hjs ].
Qed.

(** A repository whose only commit is its own parent. *)
Definition commit_loop : JSON :=
  JObj [("timeStamp", JStr "t"); ("message", JStr "again");
        ("files", JArr []); ("parent", JStr "c0")].

Definition repo_loop : World :=
  mkWorld ∅ (<["c0" := RefJSON.stringify commit_loop]> ∅) (Some "c0") (Some "[]") [] [].

Lemma log_cycle_never_ends_witness :
  fst (Part000.log 7 repo_loop) = OutOfFuel /\ fst (GystJs.log 7 repo_loop) = OutOfFuel.
Proof.
  apply (log_cycle_never_ends repo_loop "c0" (RefJSON.stringify commit_loop) commit_loop 7).
  - reflexivity.
  - reflexivity.
  - discriminate.
  - reflexivity.
  - vm_compute. reflexivity.
  - reflexivity.
Defined.

(** ** [add], then [commit] *)

(** What is committed is what [add] read: in an initialised repository
    with a list of entries as index, [add] of a file and then [commit]
    return, and the commit that HEAD names then lists, after the entries of
    the other paths, the entry of the file with the digest of the text that
    was read (the bytes of the file decoded as UTF-8), under which
    [getFileContent] finds that text.  Second file. *)
Theorem add_then_commit `{JSONCodec} (sha1_hex : string -> string) (w : World)
    (hd f c now message : string) (l : list JSON) :
  let files := List.filter (other_path f) l ++ [entry f (sha1_hex (utf8_decode c))] in
  let record := commit_record now message (JArr files) (parent_000 hd) in
  HEAD w = Some hd -> staged w = Some (JArr l) -> Forall (fun e => e <> JNull) l ->
  worktree w !! f = Some c ->
  sha1_hex (JSON_stringify record) <> sha1_hex (utf8_decode c) ->
  exists w',
    (Part000.add sha1_hex f ;; Part000.commit sha1_hex now message) w = (Return tt, w')
    /\ HEAD_commit w' = Some record
    /\ Part000.getFileContent (Some (JStr (sha1_hex (utf8_decode c)))) w'
       = (Return (utf8_decode c), w').
Proof.
  intros files record Hhead Hstaged Hl Hfile Hdistinct.
  set (t := utf8_decode c) in *.
  set (w1 := store (objectPath (sha1_hex t)) t w).
  set (w2 := print (Log ("Added file: " +:+ f))
               (store indexPath (JSON_stringify_2 (JArr files)) w1)).
  assert (Hadd : Part000.add sha1_hex f w = (Return tt, w2)).
  { unfold Part000.add.
    unfold bind at 1. rewrite (init_000_initialised w hd Hhead).
    unfold bind at 1, try_catch at 1, fs_readFile at 1. cbn [read]. rewrite Hfile.
    fold t. unfold bind at 1, fs_writeFile at 1. fold w1.
    unfold bind at 1.
    rewrite (updateStagingArea_000_run w1 f (sha1_hex t) l);
      [ reflexivity | | exact Hl ].
    apply staged_load_index. exact Hstaged. }
  assert (Hstaged2 : staged w2 = Some (JArr files)).
  { unfold w2, staged. cbn [print store index]. apply JSON_parse_stringify_2. }
  assert (Hfiles : exists e' l', files = e' :: l').
  { unfold files. destruct (List.filter (other_path f) l); cbn; eauto. }
  destruct Hfiles as (e' & l' & Hfiles).
  eexists. split; [ | split ].
  - unfold bind. rewrite Hadd.
    rewrite Hfiles in Hstaged2.
    rewrite (commit_000_run sha1_hex w2 hd now message e' l' Hhead Hstaged2).
    rewrite <- Hfiles. fold record. reflexivity.
  - apply HEAD_commit_committed, JSON_parse_stringify_2.
  - apply getFileContent_000_stored. unfold committed, w2, w1.
    cbn [print store objects].
    rewrite lookup_insert_ne by exact Hdistinct. apply lookup_insert_eq.
Qed.

(** On a file that is no UTF-8 text, the one byte FF: the commit lists the
    digest of U+FFFD, the text that was read. *)
Lemma add_then_commit_witness :
  exists w',
    (Part000.add toy_digest "x.bin" ;; Part000.commit toy_digest "t1" "first")
      (edit "x.bin" (bytes [255]) fresh) = (Return tt, w')
    /\ HEAD_commit w'
       = Some (commit_record "t1" "first"
                 (JArr (List.filter (other_path "x.bin") []
                        ++ [entry "x.bin" (toy_digest (utf8_decode (bytes [255])))]))
                 (parent_000 ""))
    /\ Part000.getFileContent (Some (JStr (toy_digest (utf8_decode (bytes [255]))))) w'
       = (Return (utf8_decode (bytes [255])), w').
Proof.
  apply (add_then_commit toy_digest (edit "x.bin" (bytes [255]) fresh)
           "" "x.bin" (bytes [255]) "t1" "first" []).
  - reflexivity.
  - vm_compute. reflexivity.
  - constructor.
  - reflexivity.
  - vm_compute. discriminate.
Defined.

(** ** The second file where [src/Gyst.js] falls short *)

(** The deduplication of the index on the fresh repository. *)
Lemma staging_dedupe_000_witness :
  exists w2 l2,
    (Part000.updateStagingArea "a.txt" "h1" ;; Part000.updateStagingArea "a.txt" "h2")
      fresh = (Return tt, w2)
    /\ staged w2 = Some (JArr l2)
    /\ entries_for "a.txt" l2 = [entry "a.txt" "h2"].
Proof.
  apply (staging_dedupe_000 fresh "a.txt" "h1" "h2" []).
  - vm_compute. reflexivity.
  - constructor.
Defined.

(** The first commit of the repository with two staged files. *)
Lemma first_commit_parent_null_000_witness :
  exists w' c,
    Part000.commit toy_digest "t1" "first" staged_ab = (Return tt, w')
    /\ HEAD_commit w' = Some c
    /\ field c "parent" = Some JNull.
Proof.
  apply (first_commit_parent_null_000 toy_digest staged_ab "t1" "first"
           (entry "a.txt" "h1") [entry "b.txt" "h3"]).
  - right. reflexivity.
  - vm_compute. reflexivity.
Defined.

(** The second commit of the repository whose first commit is lost. *)
Lemma showCommitDiff_000_missing_parent_witness :
  Part000.showCommitDiff DiffRenderer.diffLines "c2" repo2_purged
  = (Return tt,
     prints (Log ("Changes in commit " +:+ "c2" +:+ ":" +:+ LF)
             :: flat_map (file_report_000 (objects repo2_purged) note_missing_000)
                  [entry "a.txt" "b2"; entry "b.txt" "b3"]) repo2_purged).
Proof.
  apply (showCommitDiff_000_missing_parent DiffRenderer.diffLines repo2_purged
           "c2" "c2" (RefJSON.stringify_2 commit2) commit2
           [entry "a.txt" "b2"; entry "b.txt" "b3"] "c1").
  - reflexivity.
  - reflexivity.
  - vm_compute. reflexivity.
  - reflexivity.
  - discriminate.
  - reflexivity.
  - reflexivity.
  - repeat constructor; vm_compute; discriminate.
Defined.

(** [commit] of [src/Gyst.js] never refuses: whatever the index parses to,
    the empty list included, is recorded as the files of a new commit, HEAD
    moves to it and the index is written as the empty list. *)
Theorem commit_js_without_guard `{JSONCodec} (sha1_hex : string -> string)
    (w : World) (hd now message : string) (v : JSON) :
  HEAD w = Some hd -> staged w = Some v ->
  exists w',
    GystJs.commit sha1_hex now message w = (Return tt, w')
    /\ HEAD_commit w' = Some (commit_record now message v (JStr hd))
    /\ HEAD w' = Some (sha1_hex (JSON_stringify (commit_record now message v (JStr hd))))
    /\ staged w' = Some (JArr []).
Proof.
  intros Hhead Hstaged. eexists. split; [ | split; [ | split ] ].
  - apply (commit_js_run sha1_hex w hd now message v Hhead Hstaged).
  - apply HEAD_commit_committed, JSON_parse_stringify.
  - reflexivity.
  - unfold staged, committed. cbn [print store index]. apply JSON_parse_stringify.
Qed.

Lemma commit_js_without_guard_witness :
  exists w',
    GystJs.commit toy_digest "t" "oops" fresh = (Return tt, w')
    /\ HEAD_commit w' = Some (commit_record "t" "oops" (JArr []) (JStr ""))
    /\ HEAD w' = Some (toy_digest (JSON_stringify
                         (commit_record "t" "oops" (JArr []) (JStr ""))))
    /\ staged w' = Some (JArr []).
Proof.
  apply (commit_js_without_guard toy_digest fresh "" "t" "oops" (JArr [])).
  - reflexivity.
  - vm_compute. reflexivity.
Defined.
